(** * Payme client: request/response pipeline, error taxonomy, receipt operations

    A shallow embedding of the Go package [payment] (files errors, utils,
    response, client, receipts) and the properties its specification states
    about it.

    Conventions of the embedding.
    - Go [int] and [int64] are [Z]; the one arithmetic operation that can
      leave the 64-bit range ([FromSomToTiyin]) has its wrap-around written
      out with [wrap64] ([int] is taken to be 64 bits wide).
    - A Go [interface{}] is a [value]: the dynamic type is the constructor.
    - A Go [error] is [option error]: [None] is the nil error.
    - A Go pointer that may be nil is an [option]; dereferencing [None]
      panics, and panics are an outcome of the [go] monad.
    - The HTTP transport, [encoding/json] and the clock are collaborators:
      the transport is a field of [Client], the others are the class
      [Runtime]. Everything proved holds for all of them. *)

From Stdlib Require Import ZArith Lia.
From stdpp Require Import gmap strings list pretty.

Set Warnings "-register-all".
Open Scope Z_scope.

(** ** Dynamic values *)

Definition bytes := list Byte.byte.

(** [interface{}]: the values the package stores in parameter maps and
    reads out of decoded JSON. [VFloat64] carries the IEEE-754 bit pattern;
    [VOther] is any other dynamic type, by its type name. *)
Inductive value :=
| VNil
| VBool (b : bool)
| VInt (n : Z)
| VInt64 (n : Z)
| VFloat64 (bits : Z)
| VString (s : string)
| VMap (m : gmap string value)
| VNilMap
| VSlice (l : list value)
| VOther (ty : string).

(** [map[string]interface{}]: nil or a map. *)
Definition gomap := option (gmap string value).

(** Storing a map in an [interface{}]. *)
Definition box_map (m : gomap) : value :=
  match m with Some m => VMap m | None => VNilMap end.

(** [m[k]]: the zero value (nil interface) when the key is absent or the
    map is nil. *)
Definition index (m : gomap) (k : string) : value :=
  match m with
  | Some m => default VNil (m !! k)
  | None => VNil
  end.

(** Type assertions [v.(int64)], [v.(string)],
    [v.(map[string]interface{})] in their comma-ok form. *)
Definition as_int64 (v : value) : option Z :=
  match v with VInt64 n => Some n | _ => None end.

Definition as_string (v : value) : option string :=
  match v with VString s => Some s | _ => None end.

Definition as_map (v : value) : option gomap :=
  match v with
  | VMap m => Some (Some m)
  | VNilMap => Some None
  | _ => None
  end.

(** ** response.go *)

Record Error := {
  Error_Message : string;
  Error_Code : Z;
  Error_Data : string;
  Error_Origin : string
}.

Record Response := {
  Response_Jsonrpc : string;
  Response_ID : string;
  Response_Result : value;
  Response_Error : option Error
}.

(** The scalar fields of [Receipt]; the nested and untyped fields
    (category, detail, account, card, merchant, meta, ...) are read by no
    function of the package and are left out. *)
Record Receipt := {
  Receipt_ID : string;
  Receipt_CreateTime : Z;
  Receipt_PayTime : Z;
  Receipt_CancelTime : Z;
  Receipt_State : Z;
  Receipt_Type : Z;
  Receipt_External : bool;
  Receipt_Operation : Z;
  Receipt_Description : string;
  Receipt_Amount : Z;
  Receipt_Currency : Z;
  Receipt_Commission : Z
}.

Record CardData := { CardData_ID : string; CardData_Token : string }.

Record PaymentData := {
  PaymentData_OrderID : string;
  PaymentData_CardData : CardData
}.

Record PaymentDetails := {
  PaymentDetails_Client : PaymentData;
  PaymentDetails_Driver : PaymentData;
  PaymentDetails_Amount : Z
}.

(** [CreateReceiptResponse], [PayReceiptResponse], [SendReceiptResponse],
    [CancelReceiptResponse], [CheckReceiptResponse], [GetReceiptResponse]
    and [SetFiscalDataResponse] are seven struct types of one shape,
    [{ Receipt *Receipt }]. *)
Record ReceiptResponse := { Receipt_of : option Receipt }.

Definition CreateReceiptResponse := ReceiptResponse.
Definition PayReceiptResponse := ReceiptResponse.
Definition SendReceiptResponse := ReceiptResponse.
Definition CancelReceiptResponse := ReceiptResponse.
Definition CheckReceiptResponse := ReceiptResponse.
Definition GetReceiptResponse := ReceiptResponse.
Definition SetFiscalDataResponse := ReceiptResponse.

Record GetAllReceiptsResponse := { Receipts : list (option Receipt) }.

(** The zero values [var result T] starts from. *)
Definition zero_ReceiptResponse : ReceiptResponse := {| Receipt_of := None |}.
Definition zero_GetAllReceiptsResponse : GetAllReceiptsResponse :=
  {| Receipts := [] |}.

(** ** errors.go *)

Definition InvalidAmountErrorCode : Z := -31611.
Definition InvalidParamsErrorCode : Z := -32602.
Definition ReceiptNotFoundErrorCode : Z := -31401.
Definition ReceiptAlreadyPaidErrorCode : Z := -31402.
Definition ReceiptExpiredErrorCode : Z := -31403.
Definition CardNotFoundErrorCode : Z := -31400.
Definition InvalidFormatTokenErrorCode : Z := -32500.
Definition CardNumberNotFoundCode : Z := -31300.
Definition CardExpiredCode : Z := -31301.
Definition P2PIdenticalCardsErrorCode : Z := -31630.
Definition PaycomServiceNotAvailableCode : Z := -31001.
Definition ProcessingCenterNotAvailableCode : Z := -31002.
Definition PermissionDeniedCode : Z := -32504.
Definition ParseErrorCode : Z := -32700.
Definition MethodNotFoundCode : Z := -32601.
Definition InvalidRequestCode : Z := -32600.

(** Error values. The first block are the package's [errors.New]
    variables, which the code compares by identity. [Errorf_w prefix cause]
    is [fmt.Errorf(prefix + ": %w", cause)]; the two [%v] sites of
    receipts.go build an error that wraps nothing and have a constructor
    each. [Foreign] is an error made by a collaborator (net/http,
    encoding/json, io), with what its [Unwrap] returns; an error whose [Is]
    method answers for a target is represented with that target as cause. *)
Inductive error :=
| ErrReceiptNotFound
| ErrReceiptAlreadyPaid
| ErrReceiptExpired
| ErrInvalidAmount
| ErrInvalidParams
| ErrCardNotFound
| ErrInvalidFormatToken
| ErrCardNumberNotFound
| ErrCardExpired
| ErrP2PIdenticalCards
| ErrPaycomServiceNotAvailable
| ErrProcessingCenterNotAvailable
| ErrPermissionDenied
| ErrParseError
| ErrMethodNotFound
| ErrInvalidRequest
| ErrPaymeError
| ErrTimeout
| ErrEmptyOrInvalidPaycomID
| ErrEmptyOrInvalidPaycomKey
| context_DeadlineExceeded
| context_Canceled
| Foreign (msg : string) (cause : option error)
| Errorf_w (prefix : string) (cause : error)
| Errorf_failed_receipts_create
    (err : error) (requestID : string) (resp : option Response)
| Errorf_failed_receipts_pay
    (err : error) (requestID createdReceiptsID : string)
    (respError : option Error).

(** [errors.Unwrap]. *)
Definition errors_Unwrap (e : error) : option error :=
  match e with
  | Errorf_w _ cause => Some cause
  | Foreign _ cause => cause
  | _ => None
  end.

(** [errors.Is(err, context.DeadlineExceeded)], the one target the package
    tests for: the chain of [Unwrap] is followed until the target is met. *)
Fixpoint errors_Is_DeadlineExceeded (e : error) : bool :=
  match e with
  | context_DeadlineExceeded => true
  | Errorf_w _ cause => errors_Is_DeadlineExceeded cause
  | Foreign _ (Some cause) => errors_Is_DeadlineExceeded cause
  | _ => false
  end.

Definition IsPaymeError (err : option error) : bool :=
  match err with
  | Some ErrReceiptNotFound | Some ErrReceiptAlreadyPaid
  | Some ErrReceiptExpired | Some ErrInvalidAmount | Some ErrInvalidParams
  | Some ErrCardNotFound | Some ErrInvalidFormatToken
  | Some ErrCardNumberNotFound | Some ErrCardExpired
  | Some ErrP2PIdenticalCards | Some ErrPaycomServiceNotAvailable
  | Some ErrProcessingCenterNotAvailable | Some ErrPermissionDenied
  | Some ErrParseError | Some ErrMethodNotFound | Some ErrInvalidRequest =>
      true
  | _ => false
  end.

Definition GetErrorCode (err : option error) : Z :=
  match err with
  | Some ErrInvalidAmount => InvalidAmountErrorCode
  | Some ErrInvalidParams => InvalidParamsErrorCode
  | Some ErrReceiptNotFound => ReceiptNotFoundErrorCode
  | Some ErrReceiptAlreadyPaid => ReceiptAlreadyPaidErrorCode
  | Some ErrReceiptExpired => ReceiptExpiredErrorCode
  | Some ErrCardNotFound => CardNotFoundErrorCode
  | Some ErrInvalidFormatToken => InvalidFormatTokenErrorCode
  | Some ErrCardNumberNotFound => CardNumberNotFoundCode
  | Some ErrCardExpired => CardExpiredCode
  | Some ErrP2PIdenticalCards => P2PIdenticalCardsErrorCode
  | Some ErrPaycomServiceNotAvailable => PaycomServiceNotAvailableCode
  | Some ErrProcessingCenterNotAvailable => ProcessingCenterNotAvailableCode
  | Some ErrPermissionDenied => PermissionDeniedCode
  | Some ErrParseError => ParseErrorCode
  | Some ErrMethodNotFound => MethodNotFoundCode
  | Some ErrInvalidRequest => InvalidRequestCode
  | _ => 0
  end.

(** ** utils.go *)

(** Two's-complement wrap-around of a 64-bit signed integer. *)
Definition wrap64 (z : Z) : Z := (z + 2 ^ 63) mod 2 ^ 64 - 2 ^ 63.

Definition FromSomToTiyin (amount : Z) : Z := wrap64 (amount * 100).

Definition ValidateAmount (amount : Z) : option error :=
  if amount <=? 0 then Some ErrInvalidAmount
  else if amount >? 999999999999 then Some ErrInvalidAmount
  else None.

(** [len] of a Go string counts bytes, as [String.length] does. *)
Definition len (s : string) : Z := Z.of_nat (String.length s).

Definition ValidateCardToken (token : string) : option error :=
  if String.eqb token "" then Some ErrInvalidFormatToken
  else if (len token <? 10) || (len token >? 100)
       then Some ErrInvalidFormatToken
  else None.

Definition ValidateReceiptID (id : string) : option error :=
  if String.eqb id "" then Some ErrReceiptNotFound
  else if (len id <? 5) || (len id >? 100) then Some ErrReceiptNotFound
  else None.

Definition IsValidReceiptState (state : Z) : bool :=
  existsb (Z.eqb state) [0; 1; -1; -2].

(** ** The world outside the package

    What a call leaves behind: the HTTP requests handed to the transport,
    the lines given to the logger, and how often the clock was read. *)

Record Request := {
  Request_Timeout : Z;          (* the deadline of the request's context *)
  Request_Method : string;
  Request_URL : string;
  Request_XAuth : string;
  Request_ContentType : string;
  Request_Body : bytes
}.

(** What [io.ReadAll(response.Body)] returns. *)
Inductive body_read :=
| ReadError (err : error)
| ReadAll (data : bytes).

(** What [HTTPClient.Do(req)] returns: an error, or a response with its
    status code and body. *)
Inductive do_result :=
| DoError (err : error)
| DoResponse (StatusCode : Z) (Body : body_read).

(** One constructor for each [Logger.Printf] of the package. *)
Inductive log_entry :=
| Log_PayMe_error_response (respError : option Error) (err : error)
| Log_receipts_created (orderID requestID createdReceiptsID : string)
| Log_receipts_paid (orderID requestID paidReceiptsID : string)
| Log_GetAllReceipts_response (resultBytes : bytes)
| Log_Failed_to_cancel_receipt (receiptID : string) (err : error).

Record World := {
  sent : list Request;
  logged : list log_entry;
  clock : nat
}.

(** The result of running Go code: it returns, or it panics. *)
Inductive outcome (A : Type) :=
| Returns (a : A) (w : World)
| Panics (w : World).
Arguments Returns {A} a w.
Arguments Panics {A} w.

Definition go (A : Type) : Type := World -> outcome A.

#[global] Instance go_ret : MRet go := λ A a w, Returns a w.
#[global] Instance go_bind : MBind go := λ A B f m w,
  match m w with
  | Returns a w' => f a w'
  | Panics w' => Panics w'
  end.

(** A nil-pointer dereference. *)
Definition panic {A : Type} : go A := λ w, Panics w.

Definition world_of {A : Type} (o : outcome A) : World :=
  match o with Returns _ w => w | Panics w => w end.

(** ** Collaborators *)

(** [encoding/json], [net/http]'s request constructor and the clock.
    [json_Unmarshal_T data] is [json.Unmarshal(data, &v)] for a zero
    [v : T]; [http_NewRequest url] is the error of
    [http.NewRequestWithContext(ctx, "POST", url, body)];
    [time_Now_UnixNano n] is the [n]-th reading of the clock. *)
Class Runtime := {
  json_Marshal : value -> bytes + error;
  json_Unmarshal_Response : bytes -> Response + error;
  json_Unmarshal_ReceiptResponse : bytes -> ReceiptResponse + error;
  json_Unmarshal_Receipts : bytes -> list (option Receipt) + error;
  http_NewRequest : string -> option error;
  time_Now_UnixNano : nat -> Z
}.

(** ** client.go *)

Record xAuthHeaders := { paymeID : string; paymeKey : string }.

(** [HTTPClient] is the transport: from the requests sent before and the
    request at hand to the result of [Do]. [Logger] tells whether the
    logger pointer is non-nil. *)
Record Client := {
  Headers : xAuthHeaders;
  BaseURL : string;
  HTTPClient : list Request -> Request -> do_result;
  Logger : bool;
  Timeout : Z;
  IsTestMode : bool;
  RequisiteName : string
}.

Definition HTTPClient_Do (c : Client) (req : Request) : go do_result :=
  λ w, Returns (HTTPClient c (sent w) req)
         {| sent := sent w ++ [req]; logged := logged w; clock := clock w |}.

Definition Logger_Printf (line : log_entry) : go unit :=
  λ w, Returns tt
         {| sent := sent w; logged := logged w ++ [line]; clock := clock w |}.

Definition handleErrorResponse (c : Client) (responseJson : Response)
  : Response * option error :=
  match Response_Error responseJson with
  | None => (responseJson, None)
  | Some e =>
      let errorCode := Error_Code e in
      let paymeError :=
        if errorCode =? InvalidAmountErrorCode then Some ErrInvalidAmount
        else if errorCode =? InvalidParamsErrorCode then Some ErrInvalidParams
        else if errorCode =? CardNotFoundErrorCode then Some ErrCardNotFound
        else if errorCode =? InvalidFormatTokenErrorCode
             then Some ErrInvalidFormatToken
        else if errorCode =? CardNumberNotFoundCode then Some ErrCardNotFound
        else if errorCode =? CardExpiredCode then Some ErrCardExpired
        else if errorCode =? ProcessingCenterNotAvailableCode
             then Some ErrProcessingCenterNotAvailable
        else if errorCode =? PaycomServiceNotAvailableCode
             then Some ErrPaycomServiceNotAvailable
        else if errorCode =? ReceiptNotFoundErrorCode
             then Some ErrReceiptNotFound
        else if errorCode =? ReceiptAlreadyPaidErrorCode
             then Some ErrReceiptAlreadyPaid
        else if errorCode =? ReceiptExpiredErrorCode
             then Some ErrReceiptExpired
        else if negb (errorCode =? 0) then Some ErrPaymeError
        else None in
      (responseJson, paymeError)
  end.

(** The request [sendRequest] hands to the transport: a POST to the base
    URL under the derived timeout, with the two headers set. *)
Definition new_request (c : Client) (requestTimeout : Z) (withID : bool)
    (requestBody : bytes) : Request :=
  {| Request_Timeout := requestTimeout;
     Request_Method := "POST";
     Request_URL := BaseURL c;
     Request_XAuth :=
       if withID then paymeID (Headers c)
       else paymeID (Headers c) +:+ ":" +:+ paymeKey (Headers c);
     Request_ContentType := "application/json";
     Request_Body := requestBody |}.

(** The timeout [sendRequest] derives from its variadic argument. *)
Definition derive_timeout (c : Client) (timeout : list Z) : Z :=
  match timeout with
  | t :: _ => t
  | [] => Timeout c
  end.

Section Pipeline.
Context `{!Runtime}.

(** The map [data] that [sendRequest] serializes. *)
Definition envelope (requestID method : string) (params : value) : value :=
  VMap (<["params" := params]>
        (<["method" := VString method]>
         (<["id" := VString requestID]> ∅))).

Definition sendRequest (c : Client) (requestID method : string)
    (params : value) (withID : bool) (timeout : list Z)
  : go (option Response * option error) :=
  let requestTimeout := derive_timeout c timeout in
  let data := envelope requestID method params in
  match json_Marshal data with
  | inr err => mret (None, Some (Errorf_w "json marshal error" err))
  | inl requestBody =>
    match http_NewRequest (BaseURL c) with
    | Some err => mret (None, Some (Errorf_w "request creation error" err))
    | None =>
      let req := new_request c requestTimeout withID requestBody in
      response ← HTTPClient_Do c req;
      match response with
      | DoError err =>
          if errors_Is_DeadlineExceeded err then mret (None, Some ErrTimeout)
          else mret (None, Some (Errorf_w "http request error" err))
      | DoResponse _ (ReadError err) =>
          mret (None, Some (Errorf_w "response body read error" err))
      | DoResponse _ (ReadAll responseBody) =>
        match json_Unmarshal_Response responseBody with
        | inr err => mret (None, Some (Errorf_w "json unmarshal error" err))
        | inl responseJson =>
          let '(responseJson, err) := handleErrorResponse c responseJson in
          match err with
          | Some e =>
              (if Logger c
               then Logger_Printf
                      (Log_PayMe_error_response (Response_Error responseJson) e)
               else mret tt);;
              mret (Some responseJson, err)
          | None => mret (Some responseJson, err)
          end
        end
      end
    end
  end.

(** [time.Now()] followed by [UnixNano()]. *)
Definition time_Now : go Z :=
  λ w, Returns (time_Now_UnixNano (clock w))
         {| sent := sent w; logged := logged w; clock := S (clock w) |}.

Definition GenerateRequestID (prefix : string) : go string :=
  now ← time_Now;
  mret (prefix +:+ ":" +:+ pretty now).

(** [resultBytes, _ := json.Marshal(v)]: the error is dropped and the
    bytes are then nil. *)
Definition Marshal_ignoring_error (v : value) : bytes :=
  match json_Marshal v with
  | inl resultBytes => resultBytes
  | inr _ => []
  end.

(** The block "Parse result" that ends every operation on a
    [{ Receipt *Receipt }] response: [result] keeps its zero value when
    [resp.Result] is nil. *)
Definition parse_result (resp : Response) : ReceiptResponse + error :=
  match Response_Result resp with
  | VNil => inl zero_ReceiptResponse
  | v =>
      match json_Unmarshal_ReceiptResponse (Marshal_ignoring_error v) with
      | inl result => inl result
      | inr err => inr (Errorf_w "result unmarshal error" err)
      end
  end.

(** What follows [resp, err := c.sendRequest(...)] in those operations.
    [resp.Result] dereferences [resp]. *)
Definition finish (r : option Response * option error)
  : go (option ReceiptResponse * option error) :=
  match r with
  | (_, Some err) => mret (None, Some err)
  | (None, None) => panic
  | (Some resp, None) =>
      match parse_result resp with
      | inl result => mret (Some result, None)
      | inr err => mret (None, Some err)
      end
  end.

Definition CreateReceipt_params (amount : Z) (account : gomap)
    (description : string) (detail : gomap) : value :=
  VMap (<["detail" := box_map detail]>
        (<["description" := VString description]>
         (<["account" := box_map account]>
          (<["amount" := VInt64 amount]> ∅)))).

Definition CreateReceipt (c : Client) (amount : Z) (account : gomap)
    (description : string) (detail : gomap)
  : go (option CreateReceiptResponse * option error) :=
  match ValidateAmount amount with
  | Some err => mret (None, Some err)
  | None =>
      requestID ← GenerateRequestID "ReceiptsCreate";
      let receiptParams :=
        CreateReceipt_params amount account description detail in
      r ← sendRequest c requestID "receipts.create" receiptParams false [];
      finish r
  end.

Definition PayReceipt_params (receiptID token : string) : value :=
  VMap (<["token" := VString token]> (<["id" := VString receiptID]> ∅)).

Definition PayReceipt (c : Client) (receiptID token : string)
  : go (option PayReceiptResponse * option error) :=
  match ValidateReceiptID receiptID with
  | Some err => mret (None, Some err)
  | None =>
    match ValidateCardToken token with
    | Some err => mret (None, Some err)
    | None =>
        requestID ← GenerateRequestID "ReceiptsPay";
        let receiptParams := PayReceipt_params receiptID token in
        r ← sendRequest c requestID "receipts.pay" receiptParams false [];
        finish r
    end
  end.

Definition by_id_params (receiptID : string) : value :=
  VMap (<["id" := VString receiptID]> ∅).

(** [SendReceipt], [CancelReceipt], [CheckReceipt] and [GetReceipt] differ
    in the prefix of the request id and in the gateway method only. *)
Definition by_id (c : Client) (prefix method receiptID : string)
  : go (option ReceiptResponse * option error) :=
  match ValidateReceiptID receiptID with
  | Some err => mret (None, Some err)
  | None =>
      requestID ← GenerateRequestID prefix;
      let receiptParams := by_id_params receiptID in
      r ← sendRequest c requestID method receiptParams false [];
      finish r
  end.

Definition SendReceipt (c : Client) (receiptID : string)
  : go (option SendReceiptResponse * option error) :=
  by_id c "ReceiptsSend" "receipts.send" receiptID.

Definition CancelReceipt (c : Client) (receiptID : string)
  : go (option CancelReceiptResponse * option error) :=
  by_id c "ReceiptsCancel" "receipts.cancel" receiptID.

Definition CheckReceipt (c : Client) (receiptID : string)
  : go (option CheckReceiptResponse * option error) :=
  by_id c "ReceiptsCheck" "receipts.check" receiptID.

Definition GetReceipt (c : Client) (receiptID : string)
  : go (option GetReceiptResponse * option error) :=
  by_id c "ReceiptsGet" "receipts.get" receiptID.

Definition GetAllReceipts_params (from to count : Z) : value :=
  VMap (<["count" := VInt count]>
        (<["to" := VInt64 to]>
         (<["from" := VInt64 from]> ∅))).

Definition GetAllReceipts (c : Client) (from to count : Z)
  : go (option GetAllReceiptsResponse * option error) :=
  requestID ← GenerateRequestID "ReceiptsGetAll";
  let receiptParams := GetAllReceipts_params from to count in
  r ← sendRequest c requestID "receipts.get_all" receiptParams false [];
  match r with
  | (_, Some err) => mret (None, Some err)
  | (None, None) => panic
  | (Some resp, None) =>
      match Response_Result resp with
      | VNil => mret (Some zero_GetAllReceiptsResponse, None)
      | v =>
          (if Logger c
           then Logger_Printf
                  (Log_GetAllReceipts_response (Marshal_ignoring_error v))
           else mret tt);;
          match json_Unmarshal_Receipts (Marshal_ignoring_error v) with
          | inl receipts => mret (Some {| Receipts := receipts |}, None)
          | inr err =>
              mret (None, Some (Errorf_w "result unmarshal error" err))
          end
      end
  end.

Definition SetFiscalData_params (receiptID : string) (fiscalData : gomap)
  : value :=
  VMap (<["fiscal_data" := box_map fiscalData]>
        (<["id" := VString receiptID]> ∅)).

Definition SetFiscalData (c : Client) (receiptID : string)
    (fiscalData : gomap)
  : go (option SetFiscalDataResponse * option error) :=
  match ValidateReceiptID receiptID with
  | Some err => mret (None, Some err)
  | None =>
      requestID ← GenerateRequestID "ReceiptsSetFiscalData";
      let receiptParams := SetFiscalData_params receiptID fiscalData in
      r ← sendRequest c requestID "receipts.set_fiscal_data"
            receiptParams false [];
      finish r
  end.

(** [p.Receipt.ID] and [p.Receipt.State] for a response pointer [p]: both
    pointers are dereferenced. *)
Definition Receipt_field {A : Type} (f : Receipt -> A)
    (p : option ReceiptResponse) : go A :=
  match p with
  | Some {| Receipt_of := Some receipt |} => mret (f receipt)
  | _ => panic
  end.

Definition CreateAndPayReceipt (c : Client) (amount : Z) (account : gomap)
    (description token : string)
  : go (option PayReceiptResponse * option error) :=
  '(createResp, err) ← CreateReceipt c amount account description None;
  match err with
  | Some err => mret (None, Some (Errorf_w "create receipt error" err))
  | None =>
      id ← Receipt_field Receipt_ID createResp;
      '(payResp, err) ← PayReceipt c id token;
      match err with
      | Some err => mret (None, Some (Errorf_w "pay receipt error" err))
      | None => mret (payResp, None)
      end
  end.

End Pipeline.

(** ** receipts.go *)

Section Receipts.
Context `{!Runtime}.

Definition PayForOrderReasonID : string := "6".

(** [fmt.Sprintf(Description, orderID)]. *)
Definition Description (orderID : string) : string :=
  "Merchant transaction for order - " +:+ orderID.

Definition CreateMerchantReceipt_params (c : Client) (data : PaymentDetails)
  : value :=
  let amountInTiyin := FromSomToTiyin (PaymentDetails_Amount data) in
  let client := PaymentDetails_Client data in
  VMap (<["description" := VString (Description (PaymentData_OrderID client))]>
        (<["account" :=
             VMap (<["reason" := VString PayForOrderReasonID]>
                   (<["card_id" :=
                        VString (CardData_ID (PaymentData_CardData client))]>
                    (<[RequisiteName c :=
                         VString (PaymentData_OrderID client)]> ∅)))]>
         (<["amount" := VInt amountInTiyin]> ∅))).

Definition CreateMerchantReceipt (c : Client) (data : PaymentDetails)
  : go (string * option error) :=
  let orderID := PaymentData_OrderID (PaymentDetails_Client data) in
  let requestID := "ReceiptsCreate:MerchantTransaction:" +:+ orderID in
  let receiptParams := CreateMerchantReceipt_params c data in
  '(resp, err) ← sendRequest c requestID "receipts.create" receiptParams
                   false [];
  match err with
  | Some err =>
      mret ("", Some (Errorf_failed_receipts_create err requestID resp))
  | None =>
    match resp with
    | None => panic
    | Some resp =>
      match parse_result resp with
      | inr err => mret ("", Some err)
      | inl result =>
          createdReceiptsID ← Receipt_field Receipt_ID (Some result);
          (if Logger c
           then Logger_Printf
                  (Log_receipts_created orderID requestID createdReceiptsID)
           else mret tt);;
          mret (createdReceiptsID, None)
      end
    end
  end.

Definition PayMerchantReceipt_params (data : PaymentDetails)
    (createdReceiptsID : string) : value :=
  let client := PaymentDetails_Client data in
  VMap (<["token" := VString (CardData_Token (PaymentData_CardData client))]>
        (<["id" := VString createdReceiptsID]> ∅)).

Definition PayMerchantReceipt (c : Client) (data : PaymentDetails)
    (createdReceiptsID : string) : go (string * option error) :=
  let client := PaymentDetails_Client data in
  let orderID := PaymentData_OrderID client in
  let requestID := "ReceiptsPay:" +:+ orderID in
  let receiptParams := PayMerchantReceipt_params data createdReceiptsID in
  '(resp, err) ← sendRequest c requestID "receipts.pay" receiptParams
                   false [];
  match err with
  | Some err =>
      (* the message is built from [resp.Error]: [resp] is dereferenced *)
      match resp with
      | None => panic
      | Some resp =>
          mret ("", Some (Errorf_failed_receipts_pay err requestID
                            createdReceiptsID (Response_Error resp)))
      end
  | None =>
    match resp with
    | None => panic
    | Some resp =>
      match parse_result resp with
      | inr err => mret ("", Some err)
      | inl result =>
          paidReceiptsID ← Receipt_field Receipt_ID (Some result);
          (if Logger c
           then Logger_Printf
                  (Log_receipts_paid orderID requestID paidReceiptsID)
           else mret tt);;
          mret (paidReceiptsID, None)
      end
    end
  end.

Definition CreateAndPayMerchantReceipt (c : Client) (data : PaymentDetails)
  : go (string * option error) :=
  '(createdReceiptsID, err) ← CreateMerchantReceipt c data;
  match err with
  | Some err => mret ("", Some err)
  | None =>
      '(paidReceiptsID, err) ← PayMerchantReceipt c data createdReceiptsID;
      match err with
      | Some err => mret ("", Some err)
      | None => mret (paidReceiptsID, None)
      end
  end.

Definition GetReceiptStatus (c : Client) (receiptID : string)
  : go (Z * option error) :=
  '(resp, err) ← CheckReceipt c receiptID;
  match err with
  | Some err => mret (-1, Some err)
  | None =>
      state ← Receipt_field Receipt_State resp;
      mret (state, None)
  end.

Definition IsReceiptPaid (c : Client) (receiptID : string)
  : go (bool * option error) :=
  '(state, err) ← GetReceiptStatus c receiptID;
  match err with
  | Some err => mret (false, Some err)
  | None => mret (state =? 1, None)
  end.

Definition IsReceiptCanceled (c : Client) (receiptID : string)
  : go (bool * option error) :=
  '(state, err) ← GetReceiptStatus c receiptID;
  match err with
  | Some err => mret (false, Some err)
  | None => mret (state =? -1, None)
  end.

Definition IsReceiptExpired (c : Client) (receiptID : string)
  : go (bool * option error) :=
  '(state, err) ← GetReceiptStatus c receiptID;
  match err with
  | Some err => mret (false, Some err)
  | None => mret (state =? -2, None)
  end.

(** The loop of [CreateMultipleReceipts], with the slice [receiptIDs] it
    appends to; every [continue] is a call on the rest of the batch. *)
Fixpoint CreateMultipleReceipts_loop (c : Client) (receipts : list gomap)
    (receiptIDs : list string) : go (list string) :=
  match receipts with
  | [] => mret receiptIDs
  | receipt :: rest =>
    match as_int64 (index receipt "amount") with
    | None => CreateMultipleReceipts_loop c rest receiptIDs
    | Some amount =>
      match as_map (index receipt "account") with
      | None => CreateMultipleReceipts_loop c rest receiptIDs
      | Some account =>
          let description :=
            default "" (as_string (index receipt "description")) in
          let detail := default None (as_map (index receipt "detail")) in
          '(resp, err) ← CreateReceipt c amount account description detail;
          match err with
          | Some _ => CreateMultipleReceipts_loop c rest receiptIDs
          | None =>
              id ← Receipt_field Receipt_ID resp;
              CreateMultipleReceipts_loop c rest (receiptIDs ++ [id])
          end
      end
    end
  end.

Definition CreateMultipleReceipts (c : Client) (receipts : list gomap)
  : go (list string * option error) :=
  receiptIDs ← CreateMultipleReceipts_loop c receipts [];
  mret (receiptIDs, None).

Fixpoint CancelMultipleReceipts (c : Client) (receiptIDs : list string)
  : go (option error) :=
  match receiptIDs with
  | [] => mret None
  | receiptID :: rest =>
      '(_, err) ← CancelReceipt c receiptID;
      match err with
      | Some err =>
          (if Logger c
           then Logger_Printf (Log_Failed_to_cancel_receipt receiptID err)
           else mret tt);;
          CancelMultipleReceipts c rest
      | None => CancelMultipleReceipts c rest
      end
  end.

End Receipts.

(** ** The taxonomy of the specification

    The table of gateway codes and local kinds as the specification lists
    it, to compare [handleErrorResponse] with. *)

Definition taxonomy : list (Z * error) :=
  [ (-31611, ErrInvalidAmount);
    (-32602, ErrInvalidParams);
    (-31401, ErrReceiptNotFound);
    (-31402, ErrReceiptAlreadyPaid);
    (-31403, ErrReceiptExpired);
    (-31400, ErrCardNotFound);
    (-31300, ErrCardNotFound);
    (-32500, ErrInvalidFormatToken);
    (-31301, ErrCardExpired);
    (-31630, ErrP2PIdenticalCards);
    (-31001, ErrPaycomServiceNotAvailable);
    (-31002, ErrProcessingCenterNotAvailable);
    (-32504, ErrPermissionDenied);
    (-32700, ErrParseError);
    (-32601, ErrMethodNotFound);
    (-32600, ErrInvalidRequest) ].

(** The rows of the table that [handleErrorResponse] has a case for, and
    those it has none for. *)
Definition handled_rows : list (Z * error) :=
  [ (-31611, ErrInvalidAmount);
    (-32602, ErrInvalidParams);
    (-31401, ErrReceiptNotFound);
    (-31402, ErrReceiptAlreadyPaid);
    (-31403, ErrReceiptExpired);
    (-31400, ErrCardNotFound);
    (-31300, ErrCardNotFound);
    (-32500, ErrInvalidFormatToken);
    (-31301, ErrCardExpired);
    (-31001, ErrPaycomServiceNotAvailable);
    (-31002, ErrProcessingCenterNotAvailable) ].

Definition missed_rows : list (Z * error) :=
  [ (-31630, ErrP2PIdenticalCards);
    (-32504, ErrPermissionDenied);
    (-32700, ErrParseError);
    (-32601, ErrMethodNotFound);
    (-32600, ErrInvalidRequest) ].

(** A decoded envelope carrying a given code: any envelope, with any error
    detail, whose [code] field is set. *)
Definition set_Error_Code (e : Error) (code : Z) : Error :=
  {| Error_Message := Error_Message e;
     Error_Code := code;
     Error_Data := Error_Data e;
     Error_Origin := Error_Origin e |}.

Definition set_Response_Error (resp : Response) (e : option Error)
  : Response :=
  {| Response_Jsonrpc := Response_Jsonrpc resp;
     Response_ID := Response_ID resp;
     Response_Result := Response_Result resp;
     Response_Error := e |}.

(** Code to kind, as the pipeline resolves it. *)
Definition kindOf (c : Client) (resp : Response) (e : Error) (code : Z)
  : option error :=
  snd (handleErrorResponse c
         (set_Response_Error resp (Some (set_Error_Code e code)))).

(** Kind to code. *)
Definition codeOf (kind : option error) : Z := GetErrorCode kind.

(** ** Traces *)

Section Traces.
Context `{!Runtime}.

(** The request's body is the serialized envelope of a call of [method]
    with [params]. *)
Definition carries (r : Request) (method : string) (params : value) : Prop :=
  ∃ requestID,
    json_Marshal (envelope requestID method params) = inl (Request_Body r).

(** From world [w] to world [w'] nothing was sent, or one request, which
    carries [method] and [params]. *)
Definition sends_at_most (w w' : World) (method : string) (params : value)
  : Prop :=
  sent w' = sent w ∨
  ∃ r, sent w' = sent w ++ [r] ∧ carries r method params.

(** The ["amount"] entry of a parameter map. *)
Definition params_amount (params : value) : option value :=
  match params with
  | VMap m => m !! "amount"
  | _ => None
  end.

(** A pipeline call that succeeds with an envelope whose [result] is
    absent: the call is the one the operations make, a fresh request id
    followed by [sendRequest] with full authentication and the client's
    timeout. *)
Definition succeeds_without_result (c : Client) (prefix method : string)
    (params : value) (w w' : World) : Prop :=
  ∃ resp,
    (requestID ← GenerateRequestID prefix;
     sendRequest c requestID method params false []) w
      = Returns (Some resp, None) w'
    ∧ Response_Result resp = VNil.

(** The call every operation on a [{ Receipt *Receipt }] response makes
    once its arguments are validated. *)
Definition call (c : Client) (prefix method : string) (params : value)
  : go (option ReceiptResponse * option error) :=
  requestID ← GenerateRequestID prefix;
  r ← sendRequest c requestID method params false [];
  finish r.

End Traces.

(** ** A scripted gateway

    Collaborators to run the package against: a transport that answers the
    n-th request with the n-th scripted response, and a codec for a
    line-oriented wire format. The codec writes a request as the decimal
    text of its [amount] parameter and a string as itself; it reads
    [empty] as an envelope with neither result nor error, [missing] and
    [identical] as the gateway errors -31401 and -31630, and any other
    line as an envelope whose result is that line; it reads a typed result
    [cancelled] as a receipt in state -1 and any other line as a receipt
    in state 0 with that line as id. *)

Definition text (s : string) : bytes := String.list_byte_of_string s.

Definition scripted_Marshal (v : value) : bytes + error :=
  match v with
  | VString s => inl (text s)
  | VMap m =>
      match m !! "params" with
      | Some (VMap p) =>
          match p !! "amount" with
          | Some (VInt n) | Some (VInt64 n) => inl (text (pretty n))
          | _ => inl []
          end
      | _ => inl []
      end
  | _ => inr (Foreign "json: unsupported type" None)
  end.

Definition scripted_envelope (result : value) (e : option Error) : Response :=
  {| Response_Jsonrpc := "2.0"; Response_ID := "1";
     Response_Result := result; Response_Error := e |}.

Definition scripted_error (code : Z) : Error :=
  {| Error_Message := "gateway error"; Error_Code := code;
     Error_Data := ""; Error_Origin := "" |}.

Definition scripted_Unmarshal_Response (data : bytes) : Response + error :=
  let s := String.string_of_list_byte data in
  if String.eqb s "" then inr (Foreign "unexpected end of JSON input" None)
  else if String.eqb s "empty" then inl (scripted_envelope VNil None)
  else if String.eqb s "missing"
       then inl (scripted_envelope VNil (Some (scripted_error (-31401))))
  else if String.eqb s "identical"
       then inl (scripted_envelope VNil (Some (scripted_error (-31630))))
  else inl (scripted_envelope (VString s) None).

Definition scripted_receipt (id : string) (state : Z) : Receipt :=
  {| Receipt_ID := id; Receipt_CreateTime := 0; Receipt_PayTime := 0;
     Receipt_CancelTime := 0; Receipt_State := state; Receipt_Type := 0;
     Receipt_External := false; Receipt_Operation := 0;
     Receipt_Description := ""; Receipt_Amount := 0;
     Receipt_Currency := 860; Receipt_Commission := 0 |}.

Definition scripted_Unmarshal_ReceiptResponse (data : bytes)
  : ReceiptResponse + error :=
  let s := String.string_of_list_byte data in
  if String.eqb s "" then inr (Foreign "unexpected end of JSON input" None)
  else if String.eqb s "cancelled"
       then inl {| Receipt_of := Some (scripted_receipt "r-0001" (-1)) |}
  else inl {| Receipt_of := Some (scripted_receipt s 0) |}.

Definition scripted_Unmarshal_Receipts (data : bytes)
  : list (option Receipt) + error :=
  inl [].

Definition scripted : Runtime :=
  {| json_Marshal := scripted_Marshal;
     json_Unmarshal_Response := scripted_Unmarshal_Response;
     json_Unmarshal_ReceiptResponse := scripted_Unmarshal_ReceiptResponse;
     json_Unmarshal_Receipts := scripted_Unmarshal_Receipts;
     http_NewRequest := λ _, None;
     time_Now_UnixNano := λ n, 1700000000000000000 + Z.of_nat n |}.

(** The transport of a script: the n-th request gets the n-th entry, and
    requests past the script are refused. *)
Definition scripted_transport (script : list do_result)
  : list Request -> Request -> do_result :=
  λ before _,
    default (DoError (Foreign "connection refused" None))
            (script !! length before).

Definition scripted_client (script : list do_result) (logger : bool)
  : Client :=
  {| Headers := {| paymeID := "merchant"; paymeKey := "secret" |};
     BaseURL := "https://checkout.test.paycom.uz/api";
     HTTPClient := scripted_transport script;
     Logger := logger;
     Timeout := 30000000000;
     IsTestMode := true;
     RequisiteName := "order_id" |}.

Definition answer (status : Z) (line : string) : do_result :=
  DoResponse status (ReadAll (text line)).

Definition world0 : World := {| sent := []; logged := []; clock := 0 |}.

(** A gateway that creates the receipt r-0001 and then answers the pay
    request with the error -31401. *)
Definition pay_fails : list do_result :=
  [answer 200 "r-0001"; answer 200 "missing"].

Definition order (amount : Z) (token : string) : PaymentDetails :=
  let party := {| PaymentData_OrderID := "42";
                  PaymentData_CardData :=
                    {| CardData_ID := "9999"; CardData_Token := token |} |} in
  {| PaymentDetails_Client := party;
     PaymentDetails_Driver := party;
     PaymentDetails_Amount := amount |}.

(** ** utils.go, continued *)

Definition TestEndpoint : string := "https://checkout.test.paycom.uz/api".
Definition ProductionEndpoint : string := "https://checkout.paycom.uz/api".

Definition CurrencyUZS : Z := 860.
Definition CurrencyUSD : Z := 840.
Definition CurrencyEUR : Z := 978.

(** Integer division of Go truncates toward zero. *)
Definition FromTiyinToSom (amount : Z) : Z := Z.quot amount 100.

Definition IsValidCurrency (currency : Z) : bool :=
  existsb (Z.eqb currency) [CurrencyUZS; CurrencyUSD; CurrencyEUR].

(** [s[:maxLen]] is reached only when [maxLen < len(s)], so it is within
    bounds unless [maxLen] is negative, and then it panics. *)
Definition TruncateString (s : string) (maxLen : Z) : go string :=
  if len s <=? maxLen then mret s
  else if maxLen <? 0 then panic
  else mret (String.substring 0 (Z.to_nat maxLen) s +:+ "...").

Definition MaskCardNumber (number : string) : string :=
  if len number <? 8 then "****"
  else String.substring 0 4 number +:+ "****"
       +:+ String.substring (String.length number - 4) 4 number.

(** ** client.go, continued *)

(** An [http.Client]: its [Timeout] field, and what [Do] does under a given
    value of that field. *)
Record http_Client := {
  http_Client_Timeout : Z;
  http_Client_Do : Z -> list Request -> Request -> do_result
}.

Record ClientConfig := {
  ClientConfig_PaymeID : string;
  ClientConfig_PaymeKey : string;
  ClientConfig_IsTestMode : bool;
  ClientConfig_RequisiteName : string;
  ClientConfig_Logger : bool;
  ClientConfig_HTTPClient : http_Client;
  ClientConfig_BaseURL : string;
  ClientConfig_Timeout : Z
}.

Definition validate (c : ClientConfig) : option error :=
  if String.eqb (ClientConfig_PaymeID c) "" then Some ErrEmptyOrInvalidPaycomID
  else if String.eqb (ClientConfig_PaymeKey c) ""
       then Some ErrEmptyOrInvalidPaycomKey
  else None.

Definition getXAuthHeaders (paymeID paymeKey : string) : xAuthHeaders :=
  {| paymeID := paymeID; paymeKey := paymeKey |}.

(** [time.Second], in nanoseconds. *)
Definition time_Second : Z := 1000000000.

Definition NewClient (config : ClientConfig) : option Client * option error :=
  match validate config with
  | Some err => (None, Some err)
  | None =>
      let timeout :=
        if ClientConfig_Timeout config =? 0 then 30 * time_Second
        else ClientConfig_Timeout config in
      let requisiteName :=
        if String.eqb (ClientConfig_RequisiteName config) "" then "id"
        else ClientConfig_RequisiteName config in
      let baseURL :=
        if String.eqb (ClientConfig_BaseURL config) ""
        then (if ClientConfig_IsTestMode config then TestEndpoint
              else ProductionEndpoint)
        else ClientConfig_BaseURL config in
      let httpTimeout :=
        if http_Client_Timeout (ClientConfig_HTTPClient config) =? 0
        then timeout
        else http_Client_Timeout (ClientConfig_HTTPClient config) in
      (Some {| HTTPClient :=
                 http_Client_Do (ClientConfig_HTTPClient config) httpTimeout;
               BaseURL := baseURL;
               Logger := ClientConfig_Logger config;
               Headers := getXAuthHeaders (ClientConfig_PaymeID config)
                            (ClientConfig_PaymeKey config);
               Timeout := timeout;
               IsTestMode := ClientConfig_IsTestMode config;
               RequisiteName := requisiteName |},
       None)
  end.

(** ** receipts.go, continued *)

(** The calendar side of package [time]: for the [n]-th reading of the
    clock, [UnixMilli()] of the time read and of that time moved one month
    back by [AddDate(0, -1, 0)]. *)
Class Calendar := {
  time_Now_UnixMilli : nat -> Z;
  time_Now_month_back_UnixMilli : nat -> Z
}.

(** [time.Now()] followed by a conversion of the time read. *)
Definition time_Now_as (convert : nat -> Z) : go Z :=
  λ w, Returns (convert (clock w))
         {| sent := sent w; logged := logged w; clock := S (clock w) |}.

(** The loop of the two local filters, with the slice [filteredReceipts]
    it appends to. The test reads a field of the receipt: a nil element
    is dereferenced. *)
Fixpoint filter_loop (keep : Receipt -> bool)
    (receipts filteredReceipts : list (option Receipt))
  : go (list (option Receipt)) :=
  match receipts with
  | [] => mret filteredReceipts
  | None :: _ => panic
  | Some receipt :: rest =>
      filter_loop keep rest
        (if keep receipt then filteredReceipts ++ [Some receipt]
         else filteredReceipts)
  end.

Section Filters.
Context `{!Runtime} `{!Calendar}.

(** What the two filters share: the window of one month up to now, the
    fetch, and the loop over what was fetched. *)
Definition fetch_and_filter (c : Client) (keep : Receipt -> bool)
    (limit : Z) : go (option GetAllReceiptsResponse * option error) :=
  from ← time_Now_as time_Now_month_back_UnixMilli;
  to ← time_Now_as time_Now_UnixMilli;
  '(resp, err) ← GetAllReceipts c from to limit;
  match err with
  | Some err => mret (None, Some err)
  | None =>
    match resp with
    | None => panic
    | Some resp =>
        filteredReceipts ← filter_loop keep (Receipts resp) [];
        mret (Some {| Receipts := filteredReceipts |}, None)
    end
  end.

Definition GetReceiptsByState (c : Client) (state limit : Z)
  : go (option GetAllReceiptsResponse * option error) :=
  fetch_and_filter c (λ receipt, Receipt_State receipt =? state) limit.

Definition GetReceiptsByAmountRange (c : Client)
    (minAmount maxAmount limit : Z)
  : go (option GetAllReceiptsResponse * option error) :=
  fetch_and_filter c
    (λ receipt, (Receipt_Amount receipt >=? minAmount)
                && (Receipt_Amount receipt <=? maxAmount))
    limit.

End Filters.

(** ** Vocabulary of the further properties *)

(** The prefixes under which [sendRequest] wraps the failure of a step. *)
Definition sendRequest_prefixes : list string :=
  [ "json marshal error"; "request creation error"; "http request error";
    "response body read error"; "json unmarshal error" ].

(** The value of the [X-Auth] header in the two modes. *)
Definition XAuth_id_only (c : Client) : string := paymeID (Headers c).
Definition XAuth_id_and_key (c : Client) : string :=
  paymeID (Headers c) +:+ ":" +:+ paymeKey (Headers c).

(** What [sendRequest] logs for the result it returns: one line for a
    gateway error, if there is a logger. *)
Definition sendRequest_log (c : Client) (resp : option Response)
    (err : option error) : list log_entry :=
  match resp, err with
  | Some r, Some k =>
      if Logger c then [Log_PayMe_error_response (Response_Error r) k]
      else []
  | _, _ => []
  end.

(** A request of the receipt operations: a POST of JSON to the base URL,
    authenticated with id and key, under the client's timeout. *)
Definition operation_request (c : Client) (r : Request) : Prop :=
  Request_Method r = "POST"
  ∧ Request_URL r = BaseURL c
  ∧ Request_ContentType r = "application/json"
  ∧ Request_XAuth r = XAuth_id_and_key c
  ∧ Request_Timeout r = Timeout c.

(** From world [w] to world [w'] the requests in [l] were sent. *)
Definition sent_between (w w' : World) (l : list Request) : Prop :=
  sent w' = sent w ++ l.

(** How a receipt operation ends, started in world [w]: it returns, with a
    response exactly when the error is nil; it has sent at most one
    request, an [operation_request]; and without a logger it has logged
    nothing. *)
Definition operation_outcome {A : Type} (c : Client) (w : World)
    (o : outcome (option A * option error)) : Prop :=
  ∃ x w',
    o = Returns x w'
    ∧ (is_Some x.1 ↔ x.2 = None)
    ∧ (∃ l, sent_between w w' l ∧ (length l ≤ 1)%nat
            ∧ Forall (operation_request c) l)
    ∧ (Logger c = false → logged w' = logged w).

(** What a batch of [n] items leaves behind: at most [n] requests, each an
    [operation_request], and no log line without a logger. *)
Definition batch_trace (c : Client) (n : nat) (w w' : World) : Prop :=
  ∃ l, sent_between w w' l ∧ (length l ≤ n)%nat
       ∧ Forall (operation_request c) l
       ∧ (Logger c = false → logged w' = logged w).

(** The test of a local filter on an element of the fetched slice. *)
Definition kept (keep : Receipt -> bool) (receipt : option Receipt) : bool :=
  match receipt with
  | Some receipt => keep receipt
  | None => false
  end.

(** The world after two readings of the clock. *)
Definition after_two_readings (w : World) : World :=
  {| sent := sent w; logged := logged w; clock := S (S (clock w)) |}.

(** The scripted gateway with a codec that decodes every list of receipts
    to a given one, and a calendar in which a month has thirty days. *)
Definition scripted_with_receipts (receipts : list (option Receipt))
  : Runtime :=
  {| json_Marshal := scripted_Marshal;
     json_Unmarshal_Response := scripted_Unmarshal_Response;
     json_Unmarshal_ReceiptResponse := scripted_Unmarshal_ReceiptResponse;
     json_Unmarshal_Receipts := λ _, inl receipts;
     http_NewRequest := λ _, None;
     time_Now_UnixNano := λ n, 1700000000000000000 + Z.of_nat n |}.

Definition scripted_calendar : Calendar :=
  {| time_Now_UnixMilli := λ n, 1700000000000 + Z.of_nat n;
     time_Now_month_back_UnixMilli :=
       λ n, 1700000000000 + Z.of_nat n - 30 * 86400000 |}.

Definition scripted_receipt_of (id : string) (state amount : Z) : Receipt :=
  {| Receipt_ID := id; Receipt_CreateTime := 0; Receipt_PayTime := 0;
     Receipt_CancelTime := 0; Receipt_State := state; Receipt_Type := 0;
     Receipt_External := false; Receipt_Operation := 0;
     Receipt_Description := ""; Receipt_Amount := amount;
     Receipt_Currency := 860; Receipt_Commission := 0 |}.

Definition three_receipts : list (option Receipt) :=
  [ Some (scripted_receipt_of "r-0001" 0 10000);
    Some (scripted_receipt_of "r-0002" 1 20000);
    Some (scripted_receipt_of "r-0003" 1 30000) ].

(** * Properties *)

(** ** Validation *)

Lemma ValidateAmount_accepts (a : Z) :
  ValidateAmount a = None → 0 < a ≤ 999999999999.
Proof.
  unfold ValidateAmount.
  destruct (Z.leb_spec a 0); [ discriminate | ].
  destruct (Z.gtb_spec a 999999999999); [ discriminate | lia ].
Qed.

(** C8: [ValidateAmount] accepts exactly the amounts in
    (0, 999999999999], and every amount it rejects is rejected with the
    InvalidAmount kind. *)
Theorem ValidateAmount_spec (a : Z) :
  (ValidateAmount a = None ↔ 0 < a ≤ 999999999999)
  ∧ (ValidateAmount a = None ∨ ValidateAmount a = Some ErrInvalidAmount).
Proof.
  unfold ValidateAmount.
  destruct (Z.leb_spec a 0) as [Hle | Hgt].
  - split; [ split; [ discriminate | lia ] | now right ].
  - destruct (a >? 999999999999) eqn:Hbig.
    + apply Z.gtb_lt in Hbig.
      split; [ split; [ discriminate | lia ] | now right ].
    + assert (a ≤ 999999999999).
      { destruct (Z.gtb_spec a 999999999999) as [Hlt | Hge];
          [ discriminate | exact Hge ]. }
      split; [ split; [ lia | reflexivity ] | now left ].
Qed.


(** ** Error taxonomy *)

(** The table of the specification is the rows the code has a case for
    together with those it has none for. *)
Lemma taxonomy_rows : taxonomy ≡ₚ handled_rows ++ missed_rows.
Proof.
  unfold taxonomy, handled_rows, missed_rows. simpl.
  do 9 apply Permutation_skip.
  apply (Permutation_middle [_; _]).
Qed.

(** On the rows it has a case for, the code resolves the code to the kind
    of the table. *)
Lemma handleErrorResponse_handled_rows (c : Client) (resp : Response)
    (e : Error) :
  Forall (λ row, kindOf c resp e row.1 = Some row.2) handled_rows.
Proof. unfold handled_rows. repeat constructor. Qed.

(** A code that is neither zero nor one of the eleven handled ones takes
    the generic fallback. *)
Lemma handleErrorResponse_fallback (c : Client) (resp : Response)
    (e : Error) (code : Z) :
  code ≠ 0 → code ∉ handled_rows.*1 →
  kindOf c resp e code = Some ErrPaymeError.
Proof.
  intros Hnz Hnot.
  unfold kindOf, handleErrorResponse; simpl.
  repeat match goal with
  | |- context [ code =? ?k ] =>
      destruct (Z.eqb_spec code k) as [-> | ?];
      [ exfalso; first [ apply Hnot; vm_compute; set_solver | lia ] | ]
  end.
  reflexivity.
Qed.

(** A code of zero resolves to the nil error. *)
Lemma handleErrorResponse_zero (c : Client) (resp : Response) (e : Error) :
  kindOf c resp e 0 = None.
Proof. reflexivity. Qed.

(** Every code of the table resolves to some kind. *)
Lemma kindOf_defined_on_taxonomy (c : Client) (resp : Response) (e : Error) :
  Forall (λ row, is_Some (kindOf c resp e row.1)) taxonomy.
Proof. unfold taxonomy. repeat constructor; simpl; eauto. Qed.

(** C1: five rows of the table have no case in [handleErrorResponse]:
    -31630, -32504, -32700, -32601 and -32600 resolve to the generic
    fallback, not to the kind of their row. *)
Theorem handleErrorResponse_missed_rows (c : Client) (resp : Response)
    (e : Error) :
  Forall (λ row, row ∈ taxonomy
                 ∧ kindOf c resp e row.1 = Some ErrPaymeError
                 ∧ kindOf c resp e row.1 ≠ Some row.2) missed_rows.
Proof.
  unfold missed_rows, taxonomy.
  repeat constructor; simpl; try discriminate; set_solver.
Qed.

(** On the rows the code has a case for, the round trip holds: the code of
    the resolved kind resolves to the same kind. *)
Lemma round_trip_handled_rows (c : Client) (resp : Response) (e : Error) :
  Forall (λ row,
            let kind := kindOf c resp e row.1 in
            kind = Some row.2 ∧ kindOf c resp e (codeOf kind) = kind)
         handled_rows.
Proof. unfold handled_rows. repeat constructor. Qed.

(** C2: on the five rows without a case the round trip breaks: the code
    resolves to the fallback kind, whose code is 0, and 0 resolves to the
    nil error. *)
Theorem round_trip_missed_rows (c : Client) (resp : Response) (e : Error) :
  Forall (λ row,
            let kind := kindOf c resp e row.1 in
            row ∈ taxonomy
            ∧ kind = Some ErrPaymeError
            ∧ codeOf kind = 0
            ∧ kindOf c resp e (codeOf kind) = None
            ∧ kindOf c resp e (codeOf kind) ≠ kind)
         missed_rows.
Proof.
  unfold missed_rows, taxonomy.
  repeat constructor; simpl; try discriminate; set_solver.
Qed.

(** ** Request/response pipeline *)

(** Running monadic code: one step of [bind], [ret] and the primitive
    effects. *)
Ltac go_step :=
  unfold mbind, mret, go_bind, go_ret, HTTPClient_Do, Logger_Printf,
    time_Now, panic in *;
  simpl in *.

Section PipelineProperties.
Context `{!Runtime}.

Lemma handleErrorResponse_keeps_envelope (c : Client) (resp : Response) :
  (handleErrorResponse c resp).1 = resp.
Proof. unfold handleErrorResponse. now destruct (Response_Error resp). Qed.

Lemma handleErrorResponse_nil (c : Client) (resp : Response) :
  Response_Error resp = None → handleErrorResponse c resp = (resp, None).
Proof. intros Hnil. unfold handleErrorResponse. now rewrite Hnil. Qed.

(** [sendRequest] always returns; it sends at most the one request of the
    call; it returns an envelope whenever it returns no error; it does not
    read the clock. *)
Lemma sendRequest_returns (c : Client) (requestID method : string)
    (params : value) (withID : bool) (timeout : list Z) (w : World) :
  ∃ r w',
    sendRequest c requestID method params withID timeout w = Returns r w'
    ∧ sends_at_most w w' method params
    ∧ (r.2 = None → is_Some r.1)
    ∧ clock w' = clock w.
Proof.
  assert (Hquiet : ∀ (err : error) (w0 : World),
            sent w0 = sent w → clock w0 = clock w →
            ∃ r w', Returns (None : option Response, Some err) w0
                    = Returns r w'
                    ∧ sends_at_most w w' method params
                    ∧ (r.2 = None → is_Some r.1)
                    ∧ clock w' = clock w).
  { intros err w0 Hs Hc. exists (None, Some err), w0.
    repeat split; [ now left | discriminate | exact Hc ]. }
  unfold sendRequest.
  destruct (json_Marshal (envelope requestID method params))
    as [requestBody | err] eqn:Hbody; [ | now apply Hquiet ].
  destruct (http_NewRequest (BaseURL c)) as [err | ]; [ now apply Hquiet | ].
  clear Hquiet. go_step.
  set (req := new_request c (derive_timeout c timeout) withID requestBody).
  assert (Hsent : ∀ lg, sends_at_most w
            {| sent := sent w ++ [req]; logged := lg; clock := clock w |}
            method params).
  { intros lg. right. exists req. split; [ reflexivity | ].
    exists requestID. exact Hbody. }
  destruct (HTTPClient c (sent w) req) as [err | status [err | data]].
  - destruct (errors_Is_DeadlineExceeded err);
      (eexists _, _; split; [ reflexivity | ]);
      (repeat split; [ apply Hsent | discriminate ]).
  - eexists _, _. split; [ reflexivity | ].
    repeat split; [ apply Hsent | discriminate ].
  - destruct (json_Unmarshal_Response data) as [responseJson | err].
    2: { eexists _, _. split; [ reflexivity | ].
         repeat split; [ apply Hsent | discriminate ]. }
    destruct (handleErrorResponse c responseJson) as [rj [e | ]].
    + destruct (Logger c); go_step;
        (eexists _, _; split; [ reflexivity | ]);
        (repeat split; [ apply Hsent | discriminate ]).
    + eexists _, _. split; [ reflexivity | ].
      repeat split; [ apply Hsent | simpl; eauto ].
Qed.

(** C5: an inbound envelope whose [error] is nil resolves to the nil
    error, and a call whose response, of any HTTP status, decodes to such an
    envelope returns that envelope with the nil error. *)
Theorem nil_error_envelope (c : Client) (requestID method : string)
    (params : value) (withID : bool) (timeout : list Z) (w : World)
    (requestBody : bytes) (status : Z) (data : bytes) (resp : Response) :
  json_Marshal (envelope requestID method params) = inl requestBody →
  http_NewRequest (BaseURL c) = None →
  HTTPClient c (sent w)
    (new_request c (derive_timeout c timeout) withID requestBody)
    = DoResponse status (ReadAll data) →
  json_Unmarshal_Response data = inl resp →
  Response_Error resp = None →
  handleErrorResponse c resp = (resp, None)
  ∧ sendRequest c requestID method params withID timeout w
    = Returns (Some resp, None)
        {| sent := sent w ++ [new_request c (derive_timeout c timeout)
                                withID requestBody];
           logged := logged w;
           clock := clock w |}.
Proof.
  intros Hbody Hreq Hdo Hdecode Hnil.
  split; [ now apply handleErrorResponse_nil | ].
  unfold sendRequest. rewrite Hbody, Hreq. go_step.
  rewrite Hdo, Hdecode, (handleErrorResponse_nil c resp Hnil).
  reflexivity.
Qed.

(** C7: when the transport fails, the pipeline returns [ErrTimeout] if the
    failure is a deadline that was exceeded, and otherwise an error that
    wraps the cause and is not [ErrTimeout]. *)
Theorem transport_failure (c : Client) (requestID method : string)
    (params : value) (withID : bool) (timeout : list Z) (w : World)
    (requestBody : bytes) (cause : error) :
  json_Marshal (envelope requestID method params) = inl requestBody →
  http_NewRequest (BaseURL c) = None →
  HTTPClient c (sent w)
    (new_request c (derive_timeout c timeout) withID requestBody)
    = DoError cause →
  ∃ err w',
    sendRequest c requestID method params withID timeout w
      = Returns (None, Some err) w'
    ∧ (if errors_Is_DeadlineExceeded cause
       then err = ErrTimeout
       else err = Errorf_w "http request error" cause
            ∧ errors_Unwrap err = Some cause
            ∧ err ≠ ErrTimeout).
Proof.
  intros Hbody Hreq Hdo.
  unfold sendRequest. rewrite Hbody, Hreq. go_step. rewrite Hdo.
  destruct (errors_Is_DeadlineExceeded cause);
    eexists _, _; (split; [ reflexivity | ]); [ reflexivity | ].
  repeat split. discriminate.
Qed.

End PipelineProperties.

(** ** Receipt operations *)

Section OperationProperties.
Context `{!Runtime}.

(** The call returns, having sent at most its one request; it returns a
    response exactly when it returns no error. *)
Lemma call_returns (c : Client) (prefix method : string) (params : value)
    (w : World) :
  ∃ x w', call c prefix method params w = Returns x w'
          ∧ sends_at_most w w' method params
          ∧ (x.2 = None → is_Some x.1).
Proof.
  unfold call, GenerateRequestID. go_step.
  match goal with
  | |- context [ sendRequest c ?id method params false [] ?w0 ] =>
      destruct (sendRequest_returns c id method params false [] w0)
        as ([resp err] & w' & -> & Hsent & Hresp & _)
  end.
  simpl in *. unfold finish.
  destruct err as [err | ].
  - destruct resp;
      (eexists _, _; split; [ reflexivity | ]);
      (split; [ exact Hsent | discriminate ]).
  - destruct (Hresp eq_refl) as [r ->].
    destruct (parse_result r);
      (eexists _, _; split; [ reflexivity | ]);
      (split; [ exact Hsent | simpl; eauto; discriminate ]).
Qed.

Lemma call_without_result (c : Client) (prefix method : string)
    (params : value) (w w' : World) :
  succeeds_without_result c prefix method params w w' →
  call c prefix method params w = Returns (Some zero_ReceiptResponse, None) w'.
Proof.
  intros (resp & Hrun & Hnil).
  unfold call, GenerateRequestID in *. go_step.
  match type of Hrun with
  | context [ sendRequest c ?id method params false [] ?w0 ] =>
      destruct (sendRequest c id method params false [] w0)
        as [r w1 | w1]; [ | discriminate ]
  end.
  injection Hrun as -> ->.
  unfold finish, parse_result. now rewrite Hnil.
Qed.

(** C6: each of the eight receipt operations, when its pipeline call
    succeeds with an envelope whose [result] is absent, returns the zero
    value of its response type and the nil error. *)
Theorem absent_result_is_zero_response (c : Client) (w w' : World)
    (amount : Z) (account detail fiscalData : gomap)
    (description receiptID token : string) (from to count : Z) :
  (ValidateAmount amount = None →
   succeeds_without_result c "ReceiptsCreate" "receipts.create"
     (CreateReceipt_params amount account description detail) w w' →
   CreateReceipt c amount account description detail w
     = Returns (Some zero_ReceiptResponse, None) w')
  ∧ (ValidateReceiptID receiptID = None → ValidateCardToken token = None →
     succeeds_without_result c "ReceiptsPay" "receipts.pay"
       (PayReceipt_params receiptID token) w w' →
     PayReceipt c receiptID token w
       = Returns (Some zero_ReceiptResponse, None) w')
  ∧ (ValidateReceiptID receiptID = None →
     succeeds_without_result c "ReceiptsSend" "receipts.send"
       (by_id_params receiptID) w w' →
     SendReceipt c receiptID w = Returns (Some zero_ReceiptResponse, None) w')
  ∧ (ValidateReceiptID receiptID = None →
     succeeds_without_result c "ReceiptsCancel" "receipts.cancel"
       (by_id_params receiptID) w w' →
     CancelReceipt c receiptID w
       = Returns (Some zero_ReceiptResponse, None) w')
  ∧ (ValidateReceiptID receiptID = None →
     succeeds_without_result c "ReceiptsCheck" "receipts.check"
       (by_id_params receiptID) w w' →
     CheckReceipt c receiptID w
       = Returns (Some zero_ReceiptResponse, None) w')
  ∧ (ValidateReceiptID receiptID = None →
     succeeds_without_result c "ReceiptsGet" "receipts.get"
       (by_id_params receiptID) w w' →
     GetReceipt c receiptID w = Returns (Some zero_ReceiptResponse, None) w')
  ∧ (succeeds_without_result c "ReceiptsGetAll" "receipts.get_all"
       (GetAllReceipts_params from to count) w w' →
     GetAllReceipts c from to count w
       = Returns (Some zero_GetAllReceiptsResponse, None) w')
  ∧ (ValidateReceiptID receiptID = None →
     succeeds_without_result c "ReceiptsSetFiscalData"
       "receipts.set_fiscal_data"
       (SetFiscalData_params receiptID fiscalData) w w' →
     SetFiscalData c receiptID fiscalData w
       = Returns (Some zero_ReceiptResponse, None) w').
Proof.
  repeat split.
  - intros Hvalid Hcall. unfold CreateReceipt. rewrite Hvalid.
    exact (call_without_result _ _ _ _ _ _ Hcall).
  - intros Hid Htoken Hcall. unfold PayReceipt. rewrite Hid, Htoken.
    exact (call_without_result _ _ _ _ _ _ Hcall).
  - intros Hid Hcall. unfold SendReceipt, by_id. rewrite Hid.
    exact (call_without_result _ _ _ _ _ _ Hcall).
  - intros Hid Hcall. unfold CancelReceipt, by_id. rewrite Hid.
    exact (call_without_result _ _ _ _ _ _ Hcall).
  - intros Hid Hcall. unfold CheckReceipt, by_id. rewrite Hid.
    exact (call_without_result _ _ _ _ _ _ Hcall).
  - intros Hid Hcall. unfold GetReceipt, by_id. rewrite Hid.
    exact (call_without_result _ _ _ _ _ _ Hcall).
  - intros (resp & Hrun & Hnil).
    unfold GetAllReceipts, GenerateRequestID in *. go_step.
    match type of Hrun with
    | context [ sendRequest c ?id ?m ?p false [] ?w0 ] =>
        destruct (sendRequest c id m p false [] w0)
          as [r w1 | w1]; [ | discriminate ]
    end.
    injection Hrun as -> ->. now rewrite Hnil.
  - intros Hid Hcall. unfold SetFiscalData. rewrite Hid.
    exact (call_without_result _ _ _ _ _ _ Hcall).
Qed.

End OperationProperties.

(** ** Amounts *)

Lemma wrap64_in_range (z : Z) : - 2 ^ 63 ≤ z < 2 ^ 63 → wrap64 z = z.
Proof. intros Hz. unfold wrap64. rewrite Z.mod_small; lia. Qed.

Section AmountProperties.
Context `{!Runtime}.

(** [CreateReceipt] returns, having sent at most one [receipts.create]
    request with the parameters it built, and none unless the amount is
    valid. *)
Lemma CreateReceipt_returns (c : Client) (amount : Z) (account : gomap)
    (description : string) (detail : gomap) (w : World) :
  ∃ x w', CreateReceipt c amount account description detail w = Returns x w'
          ∧ sends_at_most w w' "receipts.create"
              (CreateReceipt_params amount account description detail)
          ∧ (x.2 = None → is_Some x.1)
          ∧ (sent w' ≠ sent w → ValidateAmount amount = None).
Proof.
  unfold CreateReceipt.
  destruct (ValidateAmount amount) as [err | ].
  - exists (None, Some err), w.
    repeat split; [ now left | discriminate | congruence ].
  - destruct (call_returns c "ReceiptsCreate" "receipts.create"
                (CreateReceipt_params amount account description detail) w)
      as (x & w' & Hrun & Hsent & Hresp).
    exists x, w'. auto.
Qed.

Lemma CreateMerchantReceipt_sends (c : Client) (data : PaymentDetails)
    (w : World) :
  sends_at_most w (world_of (CreateMerchantReceipt c data w))
    "receipts.create" (CreateMerchantReceipt_params c data).
Proof.
  unfold CreateMerchantReceipt. go_step.
  match goal with
  | |- context [ sendRequest c ?id ?m ?p false [] w ] =>
      destruct (sendRequest_returns c id m p false [] w)
        as ([resp err] & w' & -> & Hsent & _ & _)
  end.
  destruct err as [err | ]; [ exact Hsent | ].
  destruct resp as [resp | ]; [ | exact Hsent ].
  destruct (parse_result resp) as [[[receipt | ]] | err]; simpl;
    try exact Hsent.
  destruct (Logger c); exact Hsent.
Qed.

(** C3, as the code has it: [CreateMerchantReceipt] takes an amount in major
    units and sends it multiplied by 100; [CreateReceipt] takes an amount
    that [ValidateAmount] checks as minor units and sends it as it is. *)
Theorem amount_in_params (c : Client) (data : PaymentDetails) (amount : Z)
    (account : gomap) (description : string) (detail : gomap) (w : World) :
  - 2 ^ 63 ≤ PaymentDetails_Amount data * 100 < 2 ^ 63 →
  (params_amount (CreateMerchantReceipt_params c data)
     = Some (VInt (PaymentDetails_Amount data * 100))
   ∧ sends_at_most w (world_of (CreateMerchantReceipt c data w))
       "receipts.create" (CreateMerchantReceipt_params c data))
  ∧ (params_amount (CreateReceipt_params amount account description detail)
       = Some (VInt64 amount)
     ∧ sends_at_most w
         (world_of (CreateReceipt c amount account description detail w))
         "receipts.create"
         (CreateReceipt_params amount account description detail)
     ∧ (sent (world_of (CreateReceipt c amount account description detail w))
          ≠ sent w → 0 < amount ≤ 999999999999)).
Proof.
  intros Hrange. split; [ split | ].
  - unfold params_amount, CreateMerchantReceipt_params, FromSomToTiyin.
    rewrite (wrap64_in_range _ Hrange). now simplify_map_eq.
  - apply CreateMerchantReceipt_sends.
  - destruct (CreateReceipt_returns c amount account description detail w)
      as (x & w' & -> & Hsent & _ & Hvalid). simpl.
    split; [ | split ].
    + unfold params_amount, CreateReceipt_params. now simplify_map_eq.
    + exact Hsent.
    + intros Hnew. apply ValidateAmount_accepts, Hvalid, Hnew.
Qed.

End AmountProperties.

(** An order of 50 som is sent as 5000 tiyin. *)
Lemma amount_in_params_witness :
  params_amount (CreateMerchantReceipt_params
                   (scripted_client [answer 200 "r-0001"] false)
                   (order 50 "token-0001"))
    = Some (VInt 5000).
Proof.
  apply (@amount_in_params scripted
           (scripted_client [answer 200 "r-0001"] false)
           (order 50 "token-0001") 1 None "" None world0).
  simpl. lia.
Defined.

(** Counterexample for C3 as stated, on [CreateReceipt]: called with the amount 5 it
    sends a request whose amount is 5; no envelope with the amount 500
    serializes to the body it sent. *)
Lemma CreateReceipt_sends_amount_as_given :
  ∃ x w' r,
    @CreateReceipt scripted (scripted_client [answer 200 "r-0001"] false)
      5 (Some ∅) "Test receipt" None world0 = Returns (x, None) w'
    ∧ sent w' = [r]
    ∧ @carries scripted r "receipts.create"
        (CreateReceipt_params 5 (Some ∅) "Test receipt" None)
    ∧ ¬ ∃ params,
          (params_amount params = Some (VInt64 (5 * 100))
           ∨ params_amount params = Some (VInt (5 * 100)))
          ∧ @carries scripted r "receipts.create" params.
Proof.
  eexists _, _, _. split; [ vm_compute; reflexivity | ].
  split; [ reflexivity | ]. split.
  - exists "any". vm_compute. reflexivity.
  - intros (params & Hamount & requestID & Hbody).
    destruct params; try (destruct Hamount; discriminate).
    unfold params_amount in Hamount.
    unfold envelope in Hbody. simpl in Hbody.
    unfold scripted_Marshal in Hbody.
    rewrite lookup_insert_eq in Hbody.
    destruct Hamount as [Hamount | Hamount]; rewrite Hamount in Hbody;
      vm_compute in Hbody; discriminate.
Qed.

(** ** Composite workflows *)

Section CompositeProperties.
Context `{!Runtime}.

Lemma PayReceipt_returns (c : Client) (receiptID token : string) (w : World) :
  ∃ x w', PayReceipt c receiptID token w = Returns x w'
          ∧ sends_at_most w w' "receipts.pay"
              (PayReceipt_params receiptID token)
          ∧ (x.2 = None → is_Some x.1).
Proof.
  unfold PayReceipt.
  destruct (ValidateReceiptID receiptID) as [err | ].
  { exists (None, Some err), w. repeat split; [ now left | discriminate ]. }
  destruct (ValidateCardToken token) as [err | ].
  { exists (None, Some err), w. repeat split; [ now left | discriminate ]. }
  apply call_returns.
Qed.

Lemma by_id_returns (c : Client) (prefix method receiptID : string)
    (w : World) :
  ∃ x w', by_id c prefix method receiptID w = Returns x w'
          ∧ sends_at_most w w' method (by_id_params receiptID)
          ∧ (x.2 = None → is_Some x.1).
Proof.
  unfold by_id.
  destruct (ValidateReceiptID receiptID) as [err | ].
  { exists (None, Some err), w. repeat split; [ now left | discriminate ]. }
  apply call_returns.
Qed.

Lemma PayMerchantReceipt_sends (c : Client) (data : PaymentDetails)
    (createdReceiptsID : string) (w : World) :
  sends_at_most w (world_of (PayMerchantReceipt c data createdReceiptsID w))
    "receipts.pay" (PayMerchantReceipt_params data createdReceiptsID).
Proof.
  unfold PayMerchantReceipt. go_step.
  match goal with
  | |- context [ sendRequest c ?id ?m ?p false [] w ] =>
      destruct (sendRequest_returns c id m p false [] w)
        as ([resp err] & w' & -> & Hsent & _ & _)
  end.
  destruct err as [err | ], resp as [resp | ]; try exact Hsent.
  destruct (parse_result resp) as [[[receipt | ]] | err]; simpl;
    try exact Hsent.
  destruct (Logger c); exact Hsent.
Qed.

(** C4, as the code has it: when the pay step fails, the composite returns
    no result and the world the pay step left; what was sent is the create
    request and the pay request, and nothing is sent to cancel the receipt.
    [CreateAndPayMerchantReceipt] returns the error of the pay step itself;
    [CreateAndPayReceipt] returns it wrapped. *)
Theorem pay_failure_aborts (c : Client) (amount : Z) (account : gomap)
    (description token : string) (data : PaymentDetails) (w w1 w2 : World)
    (created : CreateReceiptResponse) (receipt : Receipt)
    (createdReceiptsID : string) (x : option PayReceiptResponse)
    (y : string) (e : error) :
  (CreateReceipt c amount account description None w
     = Returns (Some created, None) w1 →
   Receipt_of created = Some receipt →
   PayReceipt c (Receipt_ID receipt) token w1 = Returns (x, Some e) w2 →
   CreateAndPayReceipt c amount account description token w
     = Returns (None, Some (Errorf_w "pay receipt error" e)) w2
   ∧ errors_Unwrap (Errorf_w "pay receipt error" e) = Some e
   ∧ sends_at_most w w1 "receipts.create"
       (CreateReceipt_params amount account description None)
   ∧ sends_at_most w1 w2 "receipts.pay"
       (PayReceipt_params (Receipt_ID receipt) token))
  ∧ (CreateMerchantReceipt c data w = Returns (createdReceiptsID, None) w1 →
     PayMerchantReceipt c data createdReceiptsID w1
       = Returns (y, Some e) w2 →
     CreateAndPayMerchantReceipt c data w = Returns ("", Some e) w2
     ∧ sends_at_most w w1 "receipts.create"
         (CreateMerchantReceipt_params c data)
     ∧ sends_at_most w1 w2 "receipts.pay"
         (PayMerchantReceipt_params data createdReceiptsID)).
Proof.
  split.
  - intros Hcreate Hreceipt Hpay.
    split; [ | split; [ reflexivity | split ] ].
    + unfold CreateAndPayReceipt. go_step. rewrite Hcreate.
      destruct created as [r0]. simpl in Hreceipt. subst r0. simpl.
      now rewrite Hpay.
    + destruct (CreateReceipt_returns c amount account description None w)
        as (x0 & w0 & Hrun & Hsent & _).
      rewrite Hrun in Hcreate. now injection Hcreate as -> ->.
    + destruct (PayReceipt_returns c (Receipt_ID receipt) token w1)
        as (x0 & w0 & Hrun & Hsent & _).
      rewrite Hrun in Hpay. now injection Hpay as -> ->.
  - intros Hcreate Hpay. split; [ | split ].
    + unfold CreateAndPayMerchantReceipt. go_step.
      now rewrite Hcreate, Hpay.
    + pose proof (CreateMerchantReceipt_sends c data w) as Hsent.
      now rewrite Hcreate in Hsent.
    + pose proof (PayMerchantReceipt_sends c data createdReceiptsID w1)
        as Hsent.
      now rewrite Hpay in Hsent.
Qed.

(** ** Status helpers *)

(** C10: when [CheckReceipt] fails, [GetReceiptStatus] returns -1 with the
    error and the three boolean helpers return false with it; -1 is also
    what [GetReceiptStatus] returns, with the nil error, for a receipt the
    gateway reports as cancelled. *)
Theorem failed_lookup_reads_as_cancelled (c : Client) (receiptID : string)
    (w w' : World) (x : option CheckReceiptResponse) (e : error)
    (checked : CheckReceiptResponse) (receipt : Receipt) :
  (CheckReceipt c receiptID w = Returns (x, Some e) w' →
   GetReceiptStatus c receiptID w = Returns (-1, Some e) w'
   ∧ IsReceiptPaid c receiptID w = Returns (false, Some e) w'
   ∧ IsReceiptCanceled c receiptID w = Returns (false, Some e) w'
   ∧ IsReceiptExpired c receiptID w = Returns (false, Some e) w')
  ∧ (CheckReceipt c receiptID w = Returns (Some checked, None) w' →
     Receipt_of checked = Some receipt →
     Receipt_State receipt = -1 →
     GetReceiptStatus c receiptID w = Returns (-1, None) w'
     ∧ IsReceiptCanceled c receiptID w = Returns (true, None) w')
  ∧ IsValidReceiptState (-1) = true.
Proof.
  split; [ | split; [ | reflexivity ] ].
  - intros Hcheck.
    assert (Hstatus : GetReceiptStatus c receiptID w
                      = Returns (-1, Some e) w').
    { unfold GetReceiptStatus. go_step. now rewrite Hcheck. }
    unfold IsReceiptPaid, IsReceiptCanceled, IsReceiptExpired.
    go_step. now rewrite Hstatus.
  - intros Hcheck Hreceipt Hstate.
    assert (Hstatus : GetReceiptStatus c receiptID w
                      = Returns (-1, None) w').
    { unfold GetReceiptStatus. go_step. rewrite Hcheck.
      destruct checked as [r0]. simpl in Hreceipt. subst r0. simpl.
      now rewrite Hstate. }
    unfold IsReceiptCanceled. go_step. now rewrite Hstatus.
Qed.

(** ** Batches *)

Lemma CancelReceipt_returns (c : Client) (receiptID : string) (w : World) :
  ∃ x w', CancelReceipt c receiptID w = Returns x w'.
Proof.
  destruct (by_id_returns c "ReceiptsCancel" "receipts.cancel" receiptID w)
    as (x & w' & Hrun & _).
  now exists x, w'.
Qed.

(** [CancelMultipleReceipts] returns the nil error for every batch and
    every outcome of the cancellations. *)
Lemma CancelMultipleReceipts_returns_nil (c : Client)
    (receiptIDs : list string) (w : World) :
  ∃ w', CancelMultipleReceipts c receiptIDs w = Returns None w'.
Proof.
  revert w. induction receiptIDs as [ | receiptID rest IH]; intros w.
  - now exists w.
  - simpl. go_step.
    destruct (CancelReceipt_returns c receiptID w) as ([x err] & w1 & ->).
    destruct err as [err | ]; [ | apply IH ].
    destruct (Logger c); go_step; apply IH.
Qed.

(** A failed cancellation is logged when, and only when, a logger is
    configured. *)
Lemma CancelMultipleReceipts_logs_failure (c : Client) (receiptID : string)
    (rest : list string) (w w1 : World) (x : option CancelReceiptResponse)
    (err : error) :
  CancelReceipt c receiptID w = Returns (x, Some err) w1 →
  CancelMultipleReceipts c (receiptID :: rest) w
  = CancelMultipleReceipts c rest
      (if Logger c
       then {| sent := sent w1;
               logged := logged w1
                         ++ [Log_Failed_to_cancel_receipt receiptID err];
               clock := clock w1 |}
       else w1).
Proof.
  intros Hcancel. simpl. go_step. rewrite Hcancel.
  now destruct (Logger c).
Qed.

(** An item whose [amount] is no int64 or whose [account] is no map is
    passed over: the batch goes on as if the item were not there. *)
Lemma CreateMultipleReceipts_skips_malformed (c : Client) (receipt : gomap)
    (rest : list gomap) (w : World) :
  as_int64 (index receipt "amount") = None
  ∨ as_map (index receipt "account") = None →
  CreateMultipleReceipts c (receipt :: rest) w
  = CreateMultipleReceipts c rest w.
Proof.
  intros Hbad. unfold CreateMultipleReceipts. simpl.
  destruct (as_int64 (index receipt "amount")) as [amount | ];
    [ | reflexivity ].
  destruct Hbad as [Hbad | Hbad]; [ discriminate | ].
  now rewrite Hbad.
Qed.

(** An item whose [CreateReceipt] fails is passed over with its error
    dropped. *)
Lemma CreateMultipleReceipts_skips_failed (c : Client) (receipt : gomap)
    (rest : list gomap) (w w1 : World) (amount : Z) (account : gomap)
    (x : option CreateReceiptResponse) (err : error) :
  as_int64 (index receipt "amount") = Some amount →
  as_map (index receipt "account") = Some account →
  CreateReceipt c amount account
    (default "" (as_string (index receipt "description")))
    (default None (as_map (index receipt "detail"))) w
    = Returns (x, Some err) w1 →
  CreateMultipleReceipts c (receipt :: rest) w
  = CreateMultipleReceipts c rest w1.
Proof.
  intros Hamount Haccount Hcreate. unfold CreateMultipleReceipts. simpl.
  rewrite Hamount, Haccount. go_step. now rewrite Hcreate.
Qed.

(** Whenever [CreateMultipleReceipts] returns, its error is nil. *)
Lemma CreateMultipleReceipts_nil_or_panic (c : Client)
    (receipts : list gomap) (w : World) :
  (∃ receiptIDs w',
     CreateMultipleReceipts c receipts w = Returns (receiptIDs, None) w')
  ∨ (∃ w', CreateMultipleReceipts c receipts w = Panics w').
Proof.
  unfold CreateMultipleReceipts. go_step.
  destruct (CreateMultipleReceipts_loop c receipts [] w) as [ids w' | w'];
    [ left | right ]; eauto.
Qed.

End CompositeProperties.

(** * The properties on the scripted gateway *)

(** A response of status 500 whose body is an envelope without error. *)
Lemma nil_error_envelope_witness :
  ∃ w',
    @sendRequest scripted (scripted_client [answer 500 "empty"] false)
      "ReceiptsCheck:1" "receipts.check" (by_id_params "r-0001") false []
      world0
    = Returns (Some (scripted_envelope VNil None), None) w'.
Proof.
  eexists.
  eapply proj2,
    (@nil_error_envelope scripted (scripted_client [answer 500 "empty"] false)
       "ReceiptsCheck:1" "receipts.check" (by_id_params "r-0001") false []
       world0 [] 500 (text "empty") (scripted_envelope VNil None));
    reflexivity.
Defined.

(** A transport that reports the deadline, and one that refuses the
    connection. *)
Lemma transport_failure_witness :
  (∃ err w',
     @sendRequest scripted
       (scripted_client
          [DoError (Foreign "Post: context deadline exceeded"
                      (Some context_DeadlineExceeded))] false)
       "ReceiptsCheck:1" "receipts.check" (by_id_params "r-0001") false []
       world0
     = Returns (None, Some err) w' ∧ err = ErrTimeout)
  ∧ (∃ err w',
       @sendRequest scripted (scripted_client [] false)
         "ReceiptsCheck:1" "receipts.check" (by_id_params "r-0001") false []
         world0
       = Returns (None, Some err) w'
       ∧ err = Errorf_w "http request error"
                 (Foreign "connection refused" None)
       ∧ errors_Unwrap err = Some (Foreign "connection refused" None)
       ∧ err ≠ ErrTimeout).
Proof.
  split.
  - apply (@transport_failure scripted
             (scripted_client
                [DoError (Foreign "Post: context deadline exceeded"
                            (Some context_DeadlineExceeded))] false)
             "ReceiptsCheck:1" "receipts.check" (by_id_params "r-0001")
             false [] world0 []
             (Foreign "Post: context deadline exceeded"
                (Some context_DeadlineExceeded)));
      reflexivity.
  - apply (@transport_failure scripted (scripted_client [] false)
             "ReceiptsCheck:1" "receipts.check" (by_id_params "r-0001")
             false [] world0 [] (Foreign "connection refused" None));
      reflexivity.
Defined.

(** The gateway answers a create request with an envelope that has
    neither result nor error. *)
Lemma absent_result_is_zero_response_witness :
  ∃ w',
    @CreateReceipt scripted (scripted_client [answer 200 "empty"] false)
      100 (Some ∅) "Test receipt" None world0
    = Returns (Some zero_ReceiptResponse, None) w'.
Proof.
  eexists.
  eapply (@absent_result_is_zero_response scripted
            (scripted_client [answer 200 "empty"] false) world0 _
            100 (Some ∅) None None "Test receipt" "r-0001" "token-0001"
            0 0 0).
  - reflexivity.
  - eexists. split; [ vm_compute; reflexivity | reflexivity ].
Defined.

(** Both composites against that gateway. *)
Lemma pay_failure_aborts_witness :
  (∃ w2,
     @CreateAndPayReceipt scripted (scripted_client pay_fails false)
       5000 (Some ∅) "Test receipt" "token-0001" world0
     = Returns (None, Some (Errorf_w "pay receipt error" ErrReceiptNotFound))
         w2)
  ∧ (∃ e w2,
       @CreateAndPayMerchantReceipt scripted
         (scripted_client pay_fails false) (order 50 "token-0001") world0
       = Returns ("", Some e) w2).
Proof.
  split.
  - eexists.
    eapply (@pay_failure_aborts scripted (scripted_client pay_fails false)
              5000 (Some ∅) "Test receipt" "token-0001"
              (order 50 "token-0001") world0 _ _
              {| Receipt_of := Some (scripted_receipt "r-0001" 0) |}
              (scripted_receipt "r-0001" 0) "r-0001" None ""
              ErrReceiptNotFound).
    + vm_compute. reflexivity.
    + reflexivity.
    + vm_compute. reflexivity.
  - eexists _, _.
    eapply (@pay_failure_aborts scripted (scripted_client pay_fails false)
              5000 (Some ∅) "Test receipt" "token-0001"
              (order 50 "token-0001") world0 _ _
              {| Receipt_of := Some (scripted_receipt "r-0001" 0) |}
              (scripted_receipt "r-0001" 0) "r-0001" None "").
    + vm_compute. reflexivity.
    + vm_compute. reflexivity.
Defined.

(** Counterexample for C4 as stated, on [CreateAndPayReceipt]: the pay step fails with
    [ErrReceiptNotFound], and the composite returns another error value,
    which wraps it. *)
Lemma CreateAndPayReceipt_wraps_pay_error :
  ∃ w1 w2 e,
    @CreateReceipt scripted (scripted_client pay_fails false)
      5000 (Some ∅) "Test receipt" None world0
    = Returns (Some {| Receipt_of := Some (scripted_receipt "r-0001" 0) |},
               None) w1
    ∧ @PayReceipt scripted (scripted_client pay_fails false)
        "r-0001" "token-0001" w1
      = Returns (None, Some ErrReceiptNotFound) w2
    ∧ @CreateAndPayReceipt scripted (scripted_client pay_fails false)
        5000 (Some ∅) "Test receipt" "token-0001" world0
      = Returns (None, Some e) w2
    ∧ e ≠ ErrReceiptNotFound.
Proof.
  eexists _, _, _.
  split; [ vm_compute; reflexivity | ].
  split; [ vm_compute; reflexivity | ].
  split; [ vm_compute; reflexivity | discriminate ].
Qed.

(** A lookup that the gateway answers with the error -31401, and a lookup
    of a cancelled receipt. *)
Lemma failed_lookup_reads_as_cancelled_witness :
  (∃ w',
     @GetReceiptStatus scripted
       (scripted_client [answer 200 "missing"] false) "r-0001" world0
     = Returns (-1, Some ErrReceiptNotFound) w'
     ∧ @IsReceiptCanceled scripted
         (scripted_client [answer 200 "missing"] false) "r-0001" world0
       = Returns (false, Some ErrReceiptNotFound) w')
  ∧ (∃ w',
       @GetReceiptStatus scripted
         (scripted_client [answer 200 "cancelled"] false) "r-0001" world0
       = Returns (-1, None) w'
       ∧ @IsReceiptCanceled scripted
           (scripted_client [answer 200 "cancelled"] false) "r-0001" world0
         = Returns (true, None) w').
Proof.
  split.
  - eexists.
    split;
      (eapply (@failed_lookup_reads_as_cancelled scripted
                 (scripted_client [answer 200 "missing"] false) "r-0001"
                 world0 _ None ErrReceiptNotFound zero_ReceiptResponse
                 (scripted_receipt "r-0001" (-1)));
       vm_compute; reflexivity).
  - eexists.
    eapply (@failed_lookup_reads_as_cancelled scripted
              (scripted_client [answer 200 "cancelled"] false) "r-0001"
              world0 _ None ErrReceiptNotFound
              {| Receipt_of := Some (scripted_receipt "r-0001" (-1)) |}
              (scripted_receipt "r-0001" (-1)));
      [ vm_compute; reflexivity | reflexivity | reflexivity ].
Defined.

(** C9: [CreateMultipleReceipts] does not return the nil error for every
    outcome of [CreateReceipt]. When the gateway answers a create request
    with an envelope that has neither result nor error, [CreateReceipt]
    returns the zero response with the nil error, and
    [CreateMultipleReceipts] dereferences its nil receipt and panics. *)
Theorem CreateMultipleReceipts_panics_on_absent_result :
  let c := scripted_client [answer 200 "empty"] false in
  let receipt : gomap :=
    Some (<["amount" := VInt64 100]> (<["account" := VMap ∅]> ∅)) in
  (∃ w1, @CreateReceipt scripted c 100 (Some ∅) "" None world0
         = Returns (Some zero_ReceiptResponse, None) w1)
  ∧ (∃ w', @CreateMultipleReceipts scripted c [receipt] world0 = Panics w')
  ∧ ¬ (∃ receiptIDs w',
         @CreateMultipleReceipts scripted c [receipt] world0
         = Returns (receiptIDs, None) w').
Proof.
  intros c receipt.
  split; [ eexists; vm_compute; reflexivity | ].
  split; [ eexists; vm_compute; reflexivity | ].
  intros (receiptIDs & w' & Hrun). vm_compute in Hrun. discriminate.
Qed.

(** The merchant variants read the id of the receipt they decoded: on the
    same answer [CreateMerchantReceipt] panics. *)
Lemma CreateMerchantReceipt_panics_on_absent_result :
  ∃ w', @CreateMerchantReceipt scripted
          (scripted_client [answer 200 "empty"] false)
          (order 50 "token-0001") world0
        = Panics w'.
Proof. eexists. vm_compute. reflexivity. Qed.

(** [PayMerchantReceipt] builds its error message from [resp.Error]: when
    the transport fails there is no envelope and it panics. *)
Lemma PayMerchantReceipt_panics_on_transport_failure :
  ∃ w', @PayMerchantReceipt scripted (scripted_client [] false)
          (order 50 "token-0001") "r-0001" world0
        = Panics w'.
Proof. eexists. vm_compute. reflexivity. Qed.

(** Scenarios of the specification on the scripted gateway. *)

Example CheckReceipt_missing :
  ∃ w', @CheckReceipt scripted
          (scripted_client [answer 200 "missing"] false) "r-missing" world0
        = Returns (None, Some ErrReceiptNotFound) w'.
Proof. eexists. vm_compute. reflexivity. Qed.

Example CreateReceipt_decodes_receipt :
  ∃ w', @CreateReceipt scripted
          (scripted_client [answer 200 "r1-00"] false) 10000
          (Some {[ "charge_id" := VString "123" ]}) "Test receipt" None world0
        = Returns
            (Some {| Receipt_of := Some (scripted_receipt "r1-00" 0) |}, None)
            w'.
Proof. eexists. vm_compute. reflexivity. Qed.

Example ValidateAmount_bounds :
  ValidateAmount 0 = Some ErrInvalidAmount
  ∧ ValidateAmount 1 = None
  ∧ ValidateAmount 999999999999 = None
  ∧ ValidateAmount 1000000000000 = Some ErrInvalidAmount.
Proof. repeat split. Qed.

Example FromSomToTiyin_wraps :
  FromSomToTiyin 50 = 5000
  ∧ FromSomToTiyin (2 ^ 62) = 0.
Proof. split; reflexivity. Qed.

(** * Further properties of the package *)

(** ** Strings as byte sequences *)

Lemma length_app_string (s1 s2 : string) :
  String.length (s1 +:+ s2) = (String.length s1 + String.length s2)%nat.
Proof. induction s1 as [ | a s1 IH]; simpl; [ reflexivity | now rewrite IH ]. Qed.

Lemma length_substring (n m : nat) (s : string) :
  (n + m ≤ String.length s)%nat →
  String.length (String.substring n m s) = m.
Proof.
  revert n m. induction s as [ | a s IH]; intros n m Hle; simpl in Hle.
  - assert (n = 0%nat) as -> by lia. assert (m = 0%nat) as -> by lia.
    reflexivity.
  - destruct n as [ | n]; simpl.
    + destruct m as [ | m]; simpl; [ reflexivity | ].
      rewrite IH; [ reflexivity | simpl in *; lia ].
    + apply IH. lia.
Qed.

Lemma substring_app_prefix (m : nat) (s t : string) :
  (m ≤ String.length s)%nat →
  String.substring 0 m (s +:+ t) = String.substring 0 m s.
Proof.
  revert m. induction s as [ | a s IH]; intros m Hle; simpl in Hle.
  - assert (m = 0%nat) as -> by lia. simpl. now destruct t.
  - destruct m as [ | m]; simpl; [ reflexivity | ].
    rewrite IH; [ reflexivity | lia ].
Qed.

Lemma substring_whole (s : string) :
  String.substring 0 (String.length s) s = s.
Proof. induction s as [ | a s IH]; simpl; [ reflexivity | now rewrite IH ]. Qed.

(** ** Validation of tokens and receipt ids *)

(** X1: [ValidateCardToken] accepts exactly the tokens of 10 to 100 bytes,
    and rejects every other token with [ErrInvalidFormatToken]. *)
Theorem ValidateCardToken_spec (token : string) :
  (ValidateCardToken token = None ↔ 10 ≤ len token ≤ 100)
  ∧ (ValidateCardToken token = None
     ∨ ValidateCardToken token = Some ErrInvalidFormatToken).
Proof.
  unfold ValidateCardToken.
  destruct (String.eqb_spec token "") as [-> | Hne].
  { split; [ split; [ intros [=] | unfold len; simpl; lia ] | now right ]. }
  destruct (Z.ltb_spec (len token) 10), (Z.gtb_spec (len token) 100); simpl;
    (split; [ split; [ intros Hyp; first [ discriminate Hyp | lia ]
                     | intros Hyp; first [ reflexivity | lia ] ]
            | auto ]).
Qed.

(** X2: [ValidateReceiptID] accepts exactly the ids of 5 to 100 bytes, and
    rejects every other id with [ErrReceiptNotFound]. *)
Theorem ValidateReceiptID_spec (id : string) :
  (ValidateReceiptID id = None ↔ 5 ≤ len id ≤ 100)
  ∧ (ValidateReceiptID id = None
     ∨ ValidateReceiptID id = Some ErrReceiptNotFound).
Proof.
  unfold ValidateReceiptID.
  destruct (String.eqb_spec id "") as [-> | Hne].
  { split; [ split; [ intros [=] | unfold len; simpl; lia ] | now right ]. }
  destruct (Z.ltb_spec (len id) 5), (Z.gtb_spec (len id) 100); simpl;
    (split; [ split; [ intros Hyp; first [ discriminate Hyp | lia ]
                     | intros Hyp; first [ reflexivity | lia ] ]
            | auto ]).
Qed.

(** ** Error kinds and codes *)

(** X3: [IsPaymeError] and [GetErrorCode] agree: an error is one of the
    sixteen gateway kinds exactly when its code is not 0. *)
Theorem IsPaymeError_iff_code (err : option error) :
  IsPaymeError err = true ↔ GetErrorCode err ≠ 0.
Proof.
  destruct err as [[] | ]; cbv; split; intros Hyp;
    first [ reflexivity | discriminate | congruence ].
Qed.

(** X4: distinct gateway kinds have distinct codes: a gateway kind is
    determined by its code. *)
Theorem GetErrorCode_inj (err1 err2 : option error) :
  IsPaymeError err1 = true →
  GetErrorCode err1 = GetErrorCode err2 →
  err1 = err2.
Proof.
  intros Hkind Hcode.
  destruct err1 as [[] | ]; try discriminate Hkind;
    destruct err2 as [[] | ]; first [ reflexivity | discriminate Hcode ].
Qed.

Lemma GetErrorCode_inj_witness :
  Some ErrCardNotFound = Some ErrCardNotFound.
Proof.
  apply (GetErrorCode_inj (Some ErrCardNotFound) (Some ErrCardNotFound));
    reflexivity.
Defined.

(** X5: [handleErrorResponse] returns the nil error exactly when the
    envelope has no error or has an error whose code is 0: an error detail
    with the code 0 is taken for a success. *)
Theorem handleErrorResponse_nil_iff (c : Client) (resp : Response) :
  (handleErrorResponse c resp).2 = None
  ↔ Response_Error resp = None
    ∨ ∃ e, Response_Error resp = Some e ∧ Error_Code e = 0.
Proof.
  unfold handleErrorResponse.
  destruct (Response_Error resp) as [e | ]; simpl.
  2: { split; auto. }
  split.
  - intros Hnil. right. exists e. split; [ reflexivity | ].
    repeat match type of Hnil with
    | context [ Error_Code e =? ?k ] =>
        destruct (Z.eqb_spec (Error_Code e) k); [ discriminate | ]
    end.
    destruct (Z.eqb_spec (Error_Code e) 0); [ assumption | discriminate Hnil ].
  - intros [Hno | (e' & He' & Hzero)]; [ discriminate | ].
    injection He' as <-. now rewrite Hzero.
Qed.

(** X6: the error [handleErrorResponse] returns carries the code of the
    envelope: it is a gateway kind whose code is the envelope's, but for
    -31300, which is reported as the kind of -31400, or it is the generic
    [ErrPaymeError], whose code is 0. *)
Theorem handleErrorResponse_kind_code (c : Client) (resp : Response)
    (e : Error) (kind : error) :
  Response_Error resp = Some e →
  (handleErrorResponse c resp).2 = Some kind →
  (IsPaymeError (Some kind) = true
   ∧ (GetErrorCode (Some kind) = Error_Code e
      ∨ (Error_Code e = CardNumberNotFoundCode
         ∧ GetErrorCode (Some kind) = CardNotFoundErrorCode)))
  ∨ (kind = ErrPaymeError ∧ GetErrorCode (Some kind) = 0
     ∧ Error_Code e ≠ 0).
Proof.
  intros He Hkind. unfold handleErrorResponse in Hkind. rewrite He in Hkind.
  simpl in Hkind.
  repeat match type of Hkind with
  | context [ Error_Code e =? ?k ] =>
      destruct (Z.eqb_spec (Error_Code e) k) as [Hcode | ?];
      [ injection Hkind as <-; left; split; [ reflexivity | ];
        first [ left; now rewrite Hcode | right; now split ] | ]
  end.
  destruct (Z.eqb_spec (Error_Code e) 0); [ discriminate Hkind | ].
  injection Hkind as <-. right. now repeat split.
Qed.

Lemma handleErrorResponse_kind_code_witness :
  (IsPaymeError (Some ErrCardNotFound) = true
   ∧ (GetErrorCode (Some ErrCardNotFound) = -31300
      ∨ (-31300 = CardNumberNotFoundCode
         ∧ GetErrorCode (Some ErrCardNotFound) = CardNotFoundErrorCode)))
  ∨ (ErrCardNotFound = ErrPaymeError
     ∧ GetErrorCode (Some ErrCardNotFound) = 0 ∧ -31300 ≠ 0).
Proof.
  apply (handleErrorResponse_kind_code
           (scripted_client [] false)
           (scripted_envelope VNil (Some (scripted_error (-31300))))
           (scripted_error (-31300)) ErrCardNotFound);
    reflexivity.
Defined.

(** ** Amount conversion *)

(** X7: converting som to tiyin and back gives the amount again, as long
    as the product fits the integer type; converting tiyin to som and back
    loses the tiyin below a whole som, rounding toward zero. *)
Theorem som_tiyin_round_trip (amount : Z) :
  (- 2 ^ 63 ≤ amount * 100 < 2 ^ 63 →
   FromTiyinToSom (FromSomToTiyin amount) = amount)
  ∧ (- 2 ^ 63 ≤ amount < 2 ^ 63 →
     FromSomToTiyin (FromTiyinToSom amount) = amount - Z.rem amount 100
     ∧ Z.abs (FromSomToTiyin (FromTiyinToSom amount)) ≤ Z.abs amount).
Proof.
  unfold FromTiyinToSom, FromSomToTiyin. split.
  - intros Hrange. rewrite (wrap64_in_range _ Hrange).
    apply Z.quot_mul. lia.
  - intros Hrange.
    pose proof (Z.quot_rem' amount 100) as Hdiv.
    assert (Hrem : Z.abs (Z.rem amount 100) < 100
                   ∧ 0 ≤ Z.rem amount 100 * amount).
    { split; [ apply Z.rem_bound_abs; lia | ].
      apply Z.rem_sign_mul. lia. }
    rewrite wrap64_in_range; [ split; [ lia | ] | ]; nia.
Qed.

Lemma som_tiyin_round_trip_witness :
  FromTiyinToSom (FromSomToTiyin 50) = 50
  ∧ FromSomToTiyin (FromTiyinToSom (-12345)) = -12345 - Z.rem (-12345) 100.
Proof.
  split.
  - apply (som_tiyin_round_trip 50). simpl. lia.
  - apply (som_tiyin_round_trip (-12345)). simpl. lia.
Defined.

(** ** Display helpers *)

(** X8: [TruncateString] returns a string of at most [maxLen] bytes as it
    is; it cuts a longer one to its first [maxLen] bytes followed by three
    dots, [maxLen + 3] bytes in all; and it panics for every negative
    [maxLen]. *)
Theorem TruncateString_spec (s : string) (maxLen : Z) (w : World) :
  (len s ≤ maxLen → TruncateString s maxLen w = Returns s w)
  ∧ (0 ≤ maxLen < len s →
     ∃ r, TruncateString s maxLen w = Returns r w
          ∧ len r = maxLen + 3
          ∧ String.substring 0 (Z.to_nat maxLen) r
            = String.substring 0 (Z.to_nat maxLen) s
          ∧ String.substring (Z.to_nat maxLen) 3 r = "...")
  ∧ (maxLen < 0 → TruncateString s maxLen w = Panics w).
Proof.
  unfold TruncateString, len. split; [ | split ].
  - intros Hfits. destruct (Z.leb_spec (Z.of_nat (String.length s)) maxLen);
      [ reflexivity | lia ].
  - intros Hcut.
    destruct (Z.leb_spec (Z.of_nat (String.length s)) maxLen); [ lia | ].
    destruct (Z.ltb_spec maxLen 0); [ lia | ].
    assert (Hlen : String.length (String.substring 0 (Z.to_nat maxLen) s)
                   = Z.to_nat maxLen).
    { apply length_substring. lia. }
    eexists. split; [ reflexivity | ]. split; [ | split ].
    + rewrite length_app_string, Hlen. simpl. lia.
    + rewrite substring_app_prefix by lia.
      rewrite <- Hlen at 1. rewrite substring_whole.
      reflexivity.
    + generalize dependent (String.substring 0 (Z.to_nat maxLen) s).
      intros prefix. generalize (Z.to_nat maxLen).
      intros n <-. clear. induction prefix as [ | a prefix IH];
        [ reflexivity | exact IH ].
  - intros Hneg.
    destruct (Z.leb_spec (Z.of_nat (String.length s)) maxLen); [ lia | ].
    destruct (Z.ltb_spec maxLen 0); [ reflexivity | lia ].
Qed.

Lemma TruncateString_spec_witness :
  TruncateString "short" 10 world0 = Returns "short" world0
  ∧ (∃ r, TruncateString "receipt not found" 7 world0 = Returns r world0
          ∧ len r = 7 + 3
          ∧ String.substring 0 (Z.to_nat 7) r
            = String.substring 0 (Z.to_nat 7) "receipt not found"
          ∧ String.substring (Z.to_nat 7) 3 r = "...")
  ∧ TruncateString "" (-1) world0 = Panics world0.
Proof.
  split; [ | split ].
  - apply (TruncateString_spec "short" 10 world0). vm_compute. discriminate.
  - apply (TruncateString_spec "receipt not found" 7 world0).
    vm_compute. split; [ discriminate | reflexivity ].
  - apply (TruncateString_spec "" (-1) world0). lia.
Defined.

(** X9: [MaskCardNumber] shows at most eight bytes of the number: a number
    of fewer than eight bytes is replaced by four stars, and any other by
    twelve bytes, its first four and its last four around four stars. *)
Theorem MaskCardNumber_spec (number : string) :
  (len number < 8 → MaskCardNumber number = "****")
  ∧ (8 ≤ len number →
     len (MaskCardNumber number) = 12
     ∧ String.substring 0 4 (MaskCardNumber number)
       = String.substring 0 4 number
     ∧ String.substring 4 4 (MaskCardNumber number) = "****"
     ∧ String.substring 8 4 (MaskCardNumber number)
       = String.substring (String.length number - 4) 4 number).
Proof.
  unfold MaskCardNumber, len. split.
  - intros Hshort.
    destruct (Z.ltb_spec (Z.of_nat (String.length number)) 8);
      [ reflexivity | lia ].
  - intros Hlong.
    destruct (Z.ltb_spec (Z.of_nat (String.length number)) 8); [ lia | ].
    assert (Hhead : String.length (String.substring 0 4 number) = 4%nat)
      by (apply length_substring; lia).
    assert (Htail : String.length
                      (String.substring (String.length number - 4) 4 number)
                    = 4%nat)
      by (apply length_substring; lia).
    destruct (String.substring 0 4 number)
      as [ | a1 [ | a2 [ | a3 [ | a4 [ | ? ?]]]]]; try discriminate Hhead.
    destruct (String.substring (String.length number - 4) 4 number)
      as [ | b1 [ | b2 [ | b3 [ | b4 [ | ? ?]]]]]; try discriminate Htail.
    repeat split.
Qed.

Lemma MaskCardNumber_spec_witness :
  MaskCardNumber "1234" = "****"
  ∧ len (MaskCardNumber "8600123456789012") = 12.
Proof.
  split.
  - apply (MaskCardNumber_spec "1234"). vm_compute. reflexivity.
  - apply (MaskCardNumber_spec "8600123456789012"). vm_compute. discriminate.
Defined.

(** ** Client construction *)

(** X10: [NewClient] fails exactly when the merchant id or the key is
    empty, the id being checked first; the client it builds holds the two
    credentials, a timeout that is not 0 (30 seconds for a configured 0), a
    requisite name that is not empty ([id] by default) and a base URL that
    is not empty (the test or the production endpoint by default). *)
Theorem NewClient_spec (config : ClientConfig) :
  match NewClient config with
  | (Some c, None) =>
      ClientConfig_PaymeID config ≠ "" ∧ ClientConfig_PaymeKey config ≠ ""
      ∧ Headers c = {| paymeID := ClientConfig_PaymeID config;
                       paymeKey := ClientConfig_PaymeKey config |}
      ∧ Timeout c ≠ 0
      ∧ Timeout c = (if ClientConfig_Timeout config =? 0 then 30000000000
                     else ClientConfig_Timeout config)
      ∧ RequisiteName c ≠ ""
      ∧ RequisiteName c
        = (if String.eqb (ClientConfig_RequisiteName config) "" then "id"
           else ClientConfig_RequisiteName config)
      ∧ BaseURL c ≠ ""
      ∧ BaseURL c
        = (if String.eqb (ClientConfig_BaseURL config) ""
           then (if ClientConfig_IsTestMode config
                 then "https://checkout.test.paycom.uz/api"
                 else "https://checkout.paycom.uz/api")
           else ClientConfig_BaseURL config)
      ∧ Logger c = ClientConfig_Logger config
  | (None, Some err) =>
      (ClientConfig_PaymeID config = "" ∧ err = ErrEmptyOrInvalidPaycomID)
      ∨ (ClientConfig_PaymeID config ≠ "" ∧ ClientConfig_PaymeKey config = ""
         ∧ err = ErrEmptyOrInvalidPaycomKey)
  | _ => False
  end.
Proof.
  unfold NewClient, validate.
  destruct (String.eqb_spec (ClientConfig_PaymeID config) "") as [Hid | Hid];
    [ left; now split | ].
  destruct (String.eqb_spec (ClientConfig_PaymeKey config) "") as [Hkey | Hkey];
    [ right; now repeat split | ].
  simpl. repeat split; try assumption.
  - destruct (Z.eqb_spec (ClientConfig_Timeout config) 0);
      [ discriminate | assumption ].
  - destruct (String.eqb_spec (ClientConfig_RequisiteName config) "");
      [ discriminate | assumption ].
  - destruct (String.eqb_spec (ClientConfig_BaseURL config) "");
      [ destruct (ClientConfig_IsTestMode config); discriminate
      | assumption ].
Qed.

(** ** Anatomy of a pipeline call *)

Section PipelineAnatomy.
Context `{!Runtime}.

(** Every way [sendRequest] can go, with what it returns, sends and logs
    in each. *)
Lemma sendRequest_anatomy (c : Client) (requestID method : string)
    (params : value) (withID : bool) (timeout : list Z) (w : World) :
  ∃ resp err w',
    sendRequest c requestID method params withID timeout w
      = Returns (resp, err) w'
    ∧ clock w' = clock w
    ∧ (sent w' = sent w
       ∨ ∃ body,
           json_Marshal (envelope requestID method params) = inl body
           ∧ http_NewRequest (BaseURL c) = None
           ∧ sent w' = sent w ++ [new_request c (derive_timeout c timeout)
                                    withID body])
    ∧ logged w' = logged w ++ sendRequest_log c resp err
    ∧ match resp, err with
      | Some r, err => handleErrorResponse c r = (r, err)
      | None, Some k =>
          k = ErrTimeout
          ∨ ∃ prefix cause, k = Errorf_w prefix cause
                            ∧ prefix ∈ sendRequest_prefixes
      | None, None => False
      end.
Proof.
  unfold sendRequest, sendRequest_prefixes.
  destruct (json_Marshal (envelope requestID method params))
    as [body | err0] eqn:Hbody.
  2: { eexists _, _, _. split; [ reflexivity | ]. simpl.
       rewrite app_nil_r. repeat split; auto. right. eexists _, _.
       split; [ reflexivity | set_solver ]. }
  destruct (http_NewRequest (BaseURL c)) as [err0 | ] eqn:Hreq.
  { eexists _, _, _. split; [ reflexivity | ]. simpl.
    rewrite app_nil_r. repeat split; auto. right. eexists _, _.
    split; [ reflexivity | set_solver ]. }
  go_step.
  destruct (HTTPClient c (sent w) _) as [cause | status [err0 | data]].
  - destruct (errors_Is_DeadlineExceeded cause);
      (eexists _, _, _; split; [ reflexivity | ]; simpl;
       rewrite app_nil_r; repeat split; eauto).
    right. eexists _, _. split; [ reflexivity | set_solver ].
  - eexists _, _, _. split; [ reflexivity | ]. simpl.
    rewrite app_nil_r. repeat split; eauto. right. eexists _, _.
    split; [ reflexivity | set_solver ].
  - destruct (json_Unmarshal_Response data) as [decoded | err0].
    2: { eexists _, _, _. split; [ reflexivity | ]. simpl.
         rewrite app_nil_r. repeat split; eauto. right. eexists _, _.
         split; [ reflexivity | set_solver ]. }
    pose proof (handleErrorResponse_keeps_envelope c decoded) as Hkeeps.
    destruct (handleErrorResponse c decoded) as [rj [k | ]] eqn:Hresolve;
      simpl in Hkeeps; subst rj.
    + unfold sendRequest_log.
      destruct (Logger c); go_step;
        (eexists _, _, _; split; [ reflexivity | ]; simpl;
         rewrite ?app_nil_r; repeat split; eauto).
    + eexists _, _, _. split; [ reflexivity | ]. simpl.
      rewrite app_nil_r. repeat split; eauto.
Qed.


(** X12: [sendRequest] sends at most one request. The request is a POST of
    the serialized envelope to the base URL, as JSON; its [X-Auth] header
    is the merchant id alone if [withID] is set and id and key joined by a
    colon otherwise; its timeout is the first override if there is one and
    the client's timeout otherwise. Nothing is sent when the envelope
    cannot be serialized or the request cannot be built. *)
Theorem sendRequest_request (c : Client) (requestID method : string)
    (params : value) (withID : bool) (timeout : list Z) (w : World) :
  let w' := world_of
              (sendRequest c requestID method params withID timeout w) in
  sent w' = sent w
  ∨ ∃ body,
      json_Marshal (envelope requestID method params) = inl body
      ∧ http_NewRequest (BaseURL c) = None
      ∧ sent w' = sent w ++
          [{| Request_Timeout := default (Timeout c) (head timeout);
              Request_Method := "POST";
              Request_URL := BaseURL c;
              Request_XAuth := if withID then XAuth_id_only c
                               else XAuth_id_and_key c;
              Request_ContentType := "application/json";
              Request_Body := body |}].
Proof.
  destruct (sendRequest_anatomy c requestID method params withID timeout w)
    as (resp & err & w' & Hrun & _ & Hsent & _). rewrite Hrun. simpl.
  destruct Hsent as [Hsame | (body & Hbody & Hreq & Hsent)];
    [ now left | right ].
  exists body. repeat split; try assumption.
  rewrite Hsent. unfold new_request, derive_timeout.
  now destruct timeout.
Qed.

(** X13: [sendRequest] logs one line, the gateway's error detail with the
    error it resolved to, when it returns an envelope with an error and
    the client has a logger; otherwise it logs nothing. It never reads the
    clock. *)
Theorem sendRequest_logging (c : Client) (requestID method : string)
    (params : value) (withID : bool) (timeout : list Z) (w : World) :
  ∃ resp err w',
    sendRequest c requestID method params withID timeout w
      = Returns (resp, err) w'
    ∧ clock w' = clock w
    ∧ logged w' = logged w ++
        match resp, err with
        | Some r, Some k =>
            if Logger c then [Log_PayMe_error_response (Response_Error r) k]
            else []
        | _, _ => []
        end.
Proof.
  destruct (sendRequest_anatomy c requestID method params withID timeout w)
    as (resp & err & w' & Hrun & Hclock & _ & Hlog & _).
  exists resp, err, w'. repeat split; assumption.
Qed.

Lemma handleErrorResponse_not_timeout (c : Client) (resp : Response) :
  (handleErrorResponse c resp).2 ≠ Some ErrTimeout.
Proof.
  unfold handleErrorResponse.
  destruct (Response_Error resp) as [d | ]; simpl; [ | discriminate ].
  repeat match goal with
  | |- context [ Error_Code d =? ?code ] =>
      destruct (Error_Code d =? code); [ discriminate | ]
  end.
  simpl. destruct (Error_Code d =? 0); discriminate.
Qed.

(** X14: [sendRequest] returns [ErrTimeout] exactly when the request was
    built and [Do] failed with an error that is a deadline exceeded. A
    deadline that passes later, while the body is read, is returned as a
    wrapped read error. *)
Theorem sendRequest_timeout_iff (c : Client) (requestID method : string)
    (params : value) (withID : bool) (timeout : list Z) (w : World) :
  (∃ resp w',
     sendRequest c requestID method params withID timeout w
       = Returns (resp, Some ErrTimeout) w')
  ↔ (∃ body cause,
       json_Marshal (envelope requestID method params) = inl body
       ∧ http_NewRequest (BaseURL c) = None
       ∧ HTTPClient c (sent w)
           (new_request c (derive_timeout c timeout) withID body)
         = DoError cause
       ∧ errors_Is_DeadlineExceeded cause = true).
Proof.
  unfold sendRequest.
  destruct (json_Marshal (envelope requestID method params))
    as [body | err0] eqn:Hbody.
  2: { split; [ intros (? & ? & [=]) | intros (? & ? & [=] & _) ]. }
  destruct (http_NewRequest (BaseURL c)) as [err0 | ] eqn:Hreq.
  { split; [ intros (? & ? & [=]) | intros (? & ? & _ & [=] & _) ]. }
  go_step.
  assert (Hright : ∀ result,
            HTTPClient c (sent w)
              (new_request c (derive_timeout c timeout) withID body) = result →
            (∃ body0 cause,
               inl body = (inl body0 : bytes + error) ∧ None = (None : option error)
               ∧ HTTPClient c (sent w)
                   (new_request c (derive_timeout c timeout) withID body0)
                 = DoError cause
               ∧ errors_Is_DeadlineExceeded cause = true) →
            ∃ cause, result = DoError cause
                     ∧ errors_Is_DeadlineExceeded cause = true).
  { intros result Hresult (body0 & cause & [= <-] & _ & Hd & Hyes).
    exists cause. split; [ congruence | exact Hyes ]. }
  destruct (HTTPClient c (sent w) _) as [cause | status [err0 | data]]
    eqn:Hdo.
  - destruct (errors_Is_DeadlineExceeded cause) eqn:Hdeadline.
    + split; [ intros _ | intros _; eauto ].
      exists body, cause. repeat split; assumption.
    + split; [ intros (? & ? & [=]) | ].
      intros Hyp. destruct (Hright _ eq_refl Hyp) as (cause' & [= <-] & Hyes).
      congruence.
  - split; [ intros (? & ? & [=]) | ].
    intros Hyp. destruct (Hright _ eq_refl Hyp) as (cause' & [=] & _).
  - split.
    2: { intros Hyp. destruct (Hright _ eq_refl Hyp) as (cause' & [=] & _). }
    destruct (json_Unmarshal_Response data) as [decoded | err0];
      [ | intros (? & ? & [=]) ].
    pose proof (handleErrorResponse_not_timeout c decoded) as Hkind.
    destruct (handleErrorResponse c decoded) as [rj [k | ]];
      [ | intros (? & ? & [=]) ].
    simpl in Hkind.
    destruct (Logger c); go_step; intros (? & ? & [= _ -> _]);
      now destruct Hkind.
Qed.

End PipelineAnatomy.

(** ** The eight operations *)

Section OperationAnatomy.
Context `{!Runtime}.

Lemma sendRequest_log_no_logger (c : Client) (resp : option Response)
    (err : option error) :
  Logger c = false → sendRequest_log c resp err = [].
Proof.
  intros Hno. unfold sendRequest_log.
  destruct resp, err; try reflexivity. now rewrite Hno.
Qed.

Lemma new_request_operation (c : Client) (body : bytes) :
  operation_request c (new_request c (derive_timeout c []) false body).
Proof. repeat split. Qed.

(** The requests of one pipeline call of an operation. *)
Lemma sendRequest_operation (c : Client) (requestID method : string)
    (params : value) (w : World) :
  ∃ resp err w',
    sendRequest c requestID method params false [] w = Returns (resp, err) w'
    ∧ (err = None → is_Some resp)
    ∧ (∃ l, sent_between w w' l ∧ (length l ≤ 1)%nat
            ∧ Forall (operation_request c) l)
    ∧ (Logger c = false → logged w' = logged w).
Proof.
  destruct (sendRequest_anatomy c requestID method params false [] w)
    as (resp & err & w' & Hrun & _ & Hsent & Hlog & Hcase).
  exists resp, err, w'. split; [ exact Hrun | ]. split; [ | split ].
  - intros ->. destruct resp; [ eauto | contradiction ].
  - destruct Hsent as [Hsame | (body & _ & _ & Hsent)].
    + exists []. unfold sent_between. rewrite app_nil_r.
      repeat split; [ assumption | simpl; lia | constructor ].
    + eexists. split; [ exact Hsent | ]. split; [ simpl; lia | ].
      repeat constructor.
  - intros Hno. now rewrite Hlog, sendRequest_log_no_logger, app_nil_r.
Qed.

Lemma call_outcome (c : Client) (prefix method : string) (params : value)
    (w : World) :
  operation_outcome c w (call c prefix method params w).
Proof.
  unfold operation_outcome, call, GenerateRequestID. go_step.
  match goal with
  | |- context [ sendRequest c ?id method params false [] ?w0 ] =>
      destruct (sendRequest_operation c id method params w0)
        as (resp & err & w' & -> & Hresp & Hsent & Hlog)
  end.
  unfold finish.
  destruct err as [err | ].
  - destruct resp;
      (eexists _, _; split; [ reflexivity | ]; simpl;
       split; [ split; [ intros [? [=]] | intros [=] ] | now split ]).
  - destruct (Hresp eq_refl) as [r ->].
    destruct (parse_result r);
      (eexists _, _; split; [ reflexivity | ]; simpl; split; [ | now split ]).
    + split; eauto.
    + split; [ intros [? [=]] | intros [=] ].
Qed.

Lemma validation_outcome {A : Type} (c : Client) (w : World) (err : error) :
  operation_outcome c w (Returns (None : option A, Some err) w).
Proof.
  exists (None, Some err), w. split; [ reflexivity | ]. simpl.
  split; [ split; [ intros [? [=]] | intros [=] ] | ].
  split; [ | reflexivity ].
  exists []. unfold sent_between. rewrite app_nil_r.
  repeat split; [ simpl; lia | constructor ].
Qed.

(** X15: each of the eight receipt operations returns and never panics; it
    returns a response exactly when it returns the nil error; it sends at
    most one request, a POST of JSON to the base URL that is authenticated
    with the merchant id and key and runs under the client's timeout; and
    it logs nothing when the client has no logger. *)
Theorem operations_outcome (c : Client) (w : World) (amount : Z)
    (account detail fiscalData : gomap) (description receiptID token : string)
    (from to count : Z) :
  operation_outcome c w (CreateReceipt c amount account description detail w)
  ∧ operation_outcome c w (PayReceipt c receiptID token w)
  ∧ operation_outcome c w (SendReceipt c receiptID w)
  ∧ operation_outcome c w (CancelReceipt c receiptID w)
  ∧ operation_outcome c w (CheckReceipt c receiptID w)
  ∧ operation_outcome c w (GetReceipt c receiptID w)
  ∧ operation_outcome c w (GetAllReceipts c from to count w)
  ∧ operation_outcome c w (SetFiscalData c receiptID fiscalData w).
Proof.
  assert (Hby_id : ∀ prefix method,
            operation_outcome c w (by_id c prefix method receiptID w)).
  { intros prefix method. unfold by_id.
    destruct (ValidateReceiptID receiptID);
      [ apply validation_outcome | apply call_outcome ]. }
  repeat split; try apply Hby_id.
  - unfold CreateReceipt. destruct (ValidateAmount amount);
      [ apply validation_outcome | apply call_outcome ].
  - unfold PayReceipt. destruct (ValidateReceiptID receiptID);
      [ apply validation_outcome | ].
    destruct (ValidateCardToken token);
      [ apply validation_outcome | apply call_outcome ].
  - unfold operation_outcome, GetAllReceipts, GenerateRequestID. go_step.
    match goal with
    | |- context [ sendRequest c ?id ?m ?p false [] ?w0 ] =>
        destruct (sendRequest_operation c id m p w0)
          as (resp & err & w' & -> & Hresp & Hsent & Hlog)
    end.
    destruct err as [err | ].
    { destruct resp;
        (eexists _, _; split; [ reflexivity | ]; simpl;
         split; [ split; [ intros [? [=]] | intros [=] ] | now split ]). }
    destruct (Hresp eq_refl) as [r ->].
    destruct (Logger c) eqn:Hlogger, (Response_Result r); go_step;
      try destruct (json_Unmarshal_Receipts _);
      (eexists _, _; split; [ reflexivity | ]; simpl;
       split;
       [ first [ now (split; [ intros _; reflexivity
                             | intros _; eexists; reflexivity ])
               | split; [ intros [? [=]] | intros [=] ] ]
       | split; [ exact Hsent | first [ exact Hlog | intros [=] ] ] ]).
  - unfold SetFiscalData. destruct (ValidateReceiptID receiptID);
      [ apply validation_outcome | apply call_outcome ].
Qed.

(** X16: an operation called with an argument its validator rejects
    returns the validator's error and leaves the world as it was: nothing
    is sent or logged and the clock is not read. [PayReceipt] checks the
    receipt id before the token. *)
Theorem invalid_arguments_stay_local (c : Client) (w : World) (amount : Z)
    (account detail fiscalData : gomap) (description receiptID token : string)
    (err : error) :
  (ValidateAmount amount = Some err →
   CreateReceipt c amount account description detail w
     = Returns (None, Some err) w)
  ∧ (ValidateReceiptID receiptID = Some err →
     PayReceipt c receiptID token w = Returns (None, Some err) w
     ∧ SendReceipt c receiptID w = Returns (None, Some err) w
     ∧ CancelReceipt c receiptID w = Returns (None, Some err) w
     ∧ CheckReceipt c receiptID w = Returns (None, Some err) w
     ∧ GetReceipt c receiptID w = Returns (None, Some err) w
     ∧ SetFiscalData c receiptID fiscalData w = Returns (None, Some err) w)
  ∧ (ValidateReceiptID receiptID = None →
     ValidateCardToken token = Some err →
     PayReceipt c receiptID token w = Returns (None, Some err) w).
Proof.
  split; [ | split ].
  - intros Hbad. unfold CreateReceipt. now rewrite Hbad.
  - intros Hbad.
    unfold PayReceipt, SendReceipt, CancelReceipt, CheckReceipt, GetReceipt,
      SetFiscalData, by_id.
    rewrite Hbad. repeat split.
  - intros Hid Hbad. unfold PayReceipt. now rewrite Hid, Hbad.
Qed.

End OperationAnatomy.

Lemma invalid_arguments_stay_local_witness :
  @CreateReceipt scripted (scripted_client [] true) 0 None "" None world0
    = Returns (None, Some ErrInvalidAmount) world0
  ∧ @CheckReceipt scripted (scripted_client [] true) "r-1" world0
    = Returns (None, Some ErrReceiptNotFound) world0
  ∧ @PayReceipt scripted (scripted_client [] true) "r-0001" "short" world0
    = Returns (None, Some ErrInvalidFormatToken) world0.
Proof.
  split; [ | split ].
  - apply (@invalid_arguments_stay_local scripted (scripted_client [] true)
             world0 0 None None None "" "r-1" "short" ErrInvalidAmount).
    reflexivity.
  - destruct (@invalid_arguments_stay_local scripted
                (scripted_client [] true) world0 0 None None None "" "r-1"
                "short" ErrReceiptNotFound) as (_ & Hid & _).
    destruct Hid as (_ & _ & _ & Hcheck & _); [ reflexivity | exact Hcheck ].
  - destruct (@invalid_arguments_stay_local scripted
                (scripted_client [] true) world0 0 None None None ""
                "r-0001" "short" ErrInvalidFormatToken) as (_ & _ & Htoken).
    apply Htoken; reflexivity.
Defined.

(** ** Composites, status helpers and nil receipts *)

Section CompositeAnatomy.
Context `{!Runtime}.

(** X17: the create-then-pay composites stop at a failed create step, with
    nothing done after it: [CreateAndPayReceipt] returns the create error
    wrapped, [CreateAndPayMerchantReceipt] returns it as it is. When both
    steps succeed, the pay step is made for the id of the created receipt
    and the composite returns what the pay step returned. *)
Theorem create_and_pay_composes (c : Client) (amount : Z) (account : gomap)
    (description token : string) (data : PaymentDetails) (w w1 w2 : World)
    (x : option CreateReceiptResponse) (s : string) (e : error)
    (created : CreateReceiptResponse) (receipt : Receipt)
    (paid : option PayReceiptResponse) (createdReceiptsID paidID : string) :
  (CreateReceipt c amount account description None w
     = Returns (x, Some e) w1 →
   CreateAndPayReceipt c amount account description token w
     = Returns (None, Some (Errorf_w "create receipt error" e)) w1)
  ∧ (CreateMerchantReceipt c data w = Returns (s, Some e) w1 →
     CreateAndPayMerchantReceipt c data w = Returns ("", Some e) w1)
  ∧ (CreateReceipt c amount account description None w
       = Returns (Some created, None) w1 →
     Receipt_of created = Some receipt →
     PayReceipt c (Receipt_ID receipt) token w1 = Returns (paid, None) w2 →
     CreateAndPayReceipt c amount account description token w
       = Returns (paid, None) w2)
  ∧ (CreateMerchantReceipt c data w
       = Returns (createdReceiptsID, None) w1 →
     PayMerchantReceipt c data createdReceiptsID w1
       = Returns (paidID, None) w2 →
     CreateAndPayMerchantReceipt c data w = Returns (paidID, None) w2).
Proof.
  unfold CreateAndPayReceipt, CreateAndPayMerchantReceipt.
  repeat split.
  - intros Hcreate. go_step. now rewrite Hcreate.
  - intros Hcreate. go_step. now rewrite Hcreate.
  - intros Hcreate Hreceipt Hpay. go_step. rewrite Hcreate.
    destruct created as [r0]. simpl in Hreceipt. subst r0. simpl.
    now rewrite Hpay.
  - intros Hcreate Hpay. go_step. now rewrite Hcreate, Hpay.
Qed.

(** X18: a response without a receipt makes its readers panic. When
    [CreateReceipt] succeeds with a nil receipt, [CreateAndPayReceipt]
    panics before the pay step and [CreateMultipleReceipts] panics on that
    item, whatever follows it in the batch; when [CheckReceipt] succeeds
    with a nil receipt, [GetReceiptStatus] and the three boolean helpers
    panic. *)
Theorem nil_receipt_panics (c : Client) (amount : Z) (account : gomap)
    (description token receiptID : string) (w w1 : World)
    (response : ReceiptResponse) (item : gomap) (rest : list gomap) :
  Receipt_of response = None →
  (CreateReceipt c amount account description None w
     = Returns (Some response, None) w1 →
   CreateAndPayReceipt c amount account description token w = Panics w1)
  ∧ (as_int64 (index item "amount") = Some amount →
     as_map (index item "account") = Some account →
     CreateReceipt c amount account
       (default "" (as_string (index item "description")))
       (default None (as_map (index item "detail"))) w
       = Returns (Some response, None) w1 →
     CreateMultipleReceipts c (item :: rest) w = Panics w1)
  ∧ (CheckReceipt c receiptID w = Returns (Some response, None) w1 →
     GetReceiptStatus c receiptID w = Panics w1
     ∧ IsReceiptPaid c receiptID w = Panics w1
     ∧ IsReceiptCanceled c receiptID w = Panics w1
     ∧ IsReceiptExpired c receiptID w = Panics w1).
Proof.
  intros Hnil. destruct response as [r0]. simpl in Hnil. subst r0.
  split; [ | split ].
  - intros Hcreate. unfold CreateAndPayReceipt. go_step. now rewrite Hcreate.
  - intros Hamount Haccount Hcreate. unfold CreateMultipleReceipts. simpl.
    rewrite Hamount, Haccount. go_step. now rewrite Hcreate.
  - intros Hcheck.
    assert (Hstatus : GetReceiptStatus c receiptID w = Panics w1).
    { unfold GetReceiptStatus. go_step. now rewrite Hcheck. }
    unfold IsReceiptPaid, IsReceiptCanceled, IsReceiptExpired. go_step.
    now rewrite Hstatus.
Qed.

(** X19: for a receipt that [CheckReceipt] returns, [GetReceiptStatus]
    returns its state and the three helpers compare it with 1, -1 and -2,
    so at most one of them answers true; none does for a created receipt
    (state 0). *)
Theorem status_helpers_read_state (c : Client) (receiptID : string)
    (w w1 : World) (checked : CheckReceiptResponse) (receipt : Receipt) :
  CheckReceipt c receiptID w = Returns (Some checked, None) w1 →
  Receipt_of checked = Some receipt →
  ∃ paid canceled expired,
    GetReceiptStatus c receiptID w = Returns (Receipt_State receipt, None) w1
    ∧ IsReceiptPaid c receiptID w = Returns (paid, None) w1
    ∧ IsReceiptCanceled c receiptID w = Returns (canceled, None) w1
    ∧ IsReceiptExpired c receiptID w = Returns (expired, None) w1
    ∧ (paid = true ↔ Receipt_State receipt = 1)
    ∧ (canceled = true ↔ Receipt_State receipt = -1)
    ∧ (expired = true ↔ Receipt_State receipt = -2)
    ∧ (paid && canceled = false) ∧ (paid && expired = false)
    ∧ (canceled && expired = false).
Proof.
  intros Hcheck Hreceipt.
  assert (Hstatus : GetReceiptStatus c receiptID w
                    = Returns (Receipt_State receipt, None) w1).
  { unfold GetReceiptStatus. go_step. rewrite Hcheck.
    destruct checked as [r0]. simpl in Hreceipt. now subst r0. }
  exists (Receipt_State receipt =? 1), (Receipt_State receipt =? -1),
    (Receipt_State receipt =? -2).
  unfold IsReceiptPaid, IsReceiptCanceled, IsReceiptExpired. go_step.
  rewrite Hstatus.
  repeat split; try apply Z.eqb_eq; lia.
Qed.

End CompositeAnatomy.

Lemma create_and_pay_composes_witness :
  ∃ w1,
    @CreateAndPayReceipt scripted (scripted_client [] false)
      0 None "" "token-0001" world0
    = Returns (None, Some (Errorf_w "create receipt error" ErrInvalidAmount))
        w1.
Proof.
  eexists.
  eapply (@create_and_pay_composes scripted (scripted_client [] false)
            0 None "" "token-0001" (order 50 "token-0001") world0 _ world0
            None "" ErrInvalidAmount zero_ReceiptResponse
            (scripted_receipt "r-0001" 0) None "" "").
  reflexivity.
Defined.

Lemma nil_receipt_panics_witness :
  ∃ w1,
    @GetReceiptStatus scripted (scripted_client [answer 200 "empty"] false)
      "r-0001" world0 = Panics w1.
Proof.
  eexists.
  eapply (@nil_receipt_panics scripted
            (scripted_client [answer 200 "empty"] false) 100 None ""
            "token-0001" "r-0001" world0 _ zero_ReceiptResponse None []).
  - reflexivity.
  - vm_compute. reflexivity.
Defined.

Lemma status_helpers_read_state_witness :
  ∃ paid canceled expired w1,
    @IsReceiptPaid scripted (scripted_client [answer 200 "r-0001"] false)
      "r-0001" world0 = Returns (paid, None) w1
    ∧ @IsReceiptCanceled scripted
        (scripted_client [answer 200 "r-0001"] false) "r-0001" world0
      = Returns (canceled, None) w1
    ∧ @IsReceiptExpired scripted
        (scripted_client [answer 200 "r-0001"] false) "r-0001" world0
      = Returns (expired, None) w1
    ∧ paid = false ∧ canceled = false ∧ expired = false.
Proof.
  edestruct (@status_helpers_read_state scripted
               (scripted_client [answer 200 "r-0001"] false) "r-0001" world0)
    as (paid & canceled & expired & _ & Hpaid & Hcanceled & Hexpired
        & Hp & Hc & He & _).
  - vm_compute. reflexivity.
  - reflexivity.
  - exists paid, canceled, expired. eexists.
    split; [ exact Hpaid | ]. split; [ exact Hcanceled | ].
    split; [ exact Hexpired | ].
    simpl in Hp, Hc, He.
    destruct paid, canceled, expired; try (repeat split; reflexivity);
      first [ now destruct (proj1 Hp eq_refl)
            | now destruct (proj1 Hc eq_refl)
            | now destruct (proj1 He eq_refl) ].
Defined.

(** ** Batches *)

Section BatchAnatomy.
Context `{!Runtime}.

Lemma CreateReceipt_outcome (c : Client) (amount : Z) (account : gomap)
    (description : string) (detail : gomap) (w : World) :
  operation_outcome c w (CreateReceipt c amount account description detail w).
Proof.
  unfold CreateReceipt. destruct (ValidateAmount amount);
    [ apply validation_outcome | apply call_outcome ].
Qed.

Lemma CancelReceipt_outcome (c : Client) (receiptID : string) (w : World) :
  operation_outcome c w (CancelReceipt c receiptID w).
Proof.
  unfold CancelReceipt, by_id. destruct (ValidateReceiptID receiptID);
    [ apply validation_outcome | apply call_outcome ].
Qed.

Lemma sent_between_refl (w : World) : sent_between w w [].
Proof. unfold sent_between. now rewrite app_nil_r. Qed.

Lemma sent_between_trans (w w1 w2 : World) (l1 l2 : list Request) :
  sent_between w w1 l1 → sent_between w1 w2 l2 →
  sent_between w w2 (l1 ++ l2).
Proof.
  unfold sent_between. intros H1 H2. now rewrite H2, H1, app_assoc.
Qed.

Lemma batch_trace_refl (c : Client) (n : nat) (w : World) :
  batch_trace c n w w.
Proof.
  exists []. split; [ apply sent_between_refl | ].
  repeat split; [ simpl; lia | constructor ].
Qed.

Lemma batch_trace_step (c : Client) (n : nat) (w w1 w2 : World)
    (l1 : list Request) :
  sent_between w w1 l1 → (length l1 ≤ 1)%nat →
  Forall (operation_request c) l1 →
  (Logger c = false → logged w1 = logged w) →
  batch_trace c n w1 w2 →
  batch_trace c (S n) w w2.
Proof.
  intros Hs1 Hlen1 Hall1 Hlog1 (l2 & Hs2 & Hlen2 & Hall2 & Hlog2).
  exists (l1 ++ l2). split; [ now apply (sent_between_trans w w1 w2) | ].
  split; [ rewrite length_app; lia | ].
  split; [ now apply Forall_app | ].
  intros Hno. now rewrite Hlog2, Hlog1.
Qed.

Lemma batch_trace_weaken (c : Client) (n : nat) (w w' : World) :
  batch_trace c n w w' → batch_trace c (S n) w w'.
Proof.
  intros (l & Hs & Hlen & Hall & Hlog). exists l. repeat split; auto; lia.
Qed.

Lemma CreateMultipleReceipts_loop_bounds (c : Client) (receipts : list gomap)
    (receiptIDs : list string) (w : World) :
  let o := CreateMultipleReceipts_loop c receipts receiptIDs w in
  batch_trace c (length receipts) w (world_of o)
  ∧ ∀ ids w', o = Returns ids w' →
      ∃ new, ids = receiptIDs ++ new ∧ (length new ≤ length receipts)%nat.
Proof.
  revert receiptIDs w.
  induction receipts as [ | receipt rest IH]; intros receiptIDs w; simpl.
  { split; [ apply batch_trace_refl | ].
    intros ids w' [= <- <-]. exists []. now rewrite app_nil_r. }
  assert (Hskip : let o := CreateMultipleReceipts_loop c rest receiptIDs w in
            batch_trace c (S (length rest)) w (world_of o)
            ∧ ∀ ids w', o = Returns ids w' →
                ∃ new, ids = receiptIDs ++ new
                       ∧ (length new ≤ S (length rest))%nat).
  { destruct (IH receiptIDs w) as [Htrace Hids].
    split; [ now apply batch_trace_weaken | ].
    intros ids w' Hrun. destruct (Hids ids w' Hrun) as (new & -> & Hlen).
    exists new. split; [ reflexivity | lia ]. }
  destruct (as_int64 (index receipt "amount")) as [amount | ];
    [ | exact Hskip ].
  destruct (as_map (index receipt "account")) as [account | ];
    [ | exact Hskip ].
  clear Hskip. go_step.
  destruct (CreateReceipt_outcome c amount account
              (default "" (as_string (index receipt "description")))
              (default None (as_map (index receipt "detail"))) w)
    as ([resp err] & w1 & -> & _ & (l1 & Hs1 & Hlen1 & Hall1) & Hlog1).
  destruct err as [err | ].
  - destruct (IH receiptIDs w1) as [Htrace Hids].
    split; [ now apply (batch_trace_step c _ w w1 _ l1) | ].
    intros ids w' Hrun. destruct (Hids ids w' Hrun) as (new & -> & Hlen).
    exists new. split; [ reflexivity | lia ].
  - destruct resp as [[[r | ]] | ]; simpl.
    + destruct (IH (receiptIDs ++ [Receipt_ID r]) w1) as [Htrace Hids].
      split; [ now apply (batch_trace_step c _ w w1 _ l1) | ].
      intros ids w' Hrun. destruct (Hids ids w' Hrun) as (new & -> & Hlen).
      exists (Receipt_ID r :: new).
      split; [ now rewrite <- app_assoc | simpl; lia ].
    + split; [ | intros ids w' [=] ].
      apply (batch_trace_step c _ w w1 _ l1); auto using batch_trace_refl.
    + split; [ | intros ids w' [=] ].
      apply (batch_trace_step c _ w w1 _ l1); auto using batch_trace_refl.
Qed.

(** X20: a batch in which every item lacks an int64 [amount] or a map
    [account] gives the result of the empty batch: no ids, the nil error,
    and nothing sent, logged or read from the clock. *)
Theorem CreateMultipleReceipts_all_malformed (c : Client)
    (receipts : list gomap) (w : World) :
  Forall (λ receipt, as_int64 (index receipt "amount") = None
                     ∨ as_map (index receipt "account") = None) receipts →
  CreateMultipleReceipts c receipts w = Returns ([], None) w.
Proof.
  intros Hall. unfold CreateMultipleReceipts. go_step.
  assert (Hloop : CreateMultipleReceipts_loop c receipts [] w = Returns [] w).
  { induction Hall as [ | receipt rest Hbad _ IH]; simpl; [ reflexivity | ].
    destruct (as_int64 (index receipt "amount")); [ | exact IH ].
    destruct Hbad as [Hbad | Hbad]; [ discriminate | ].
    now rewrite Hbad. }
  now rewrite Hloop.
Qed.

(** X21: [CreateMultipleReceipts] sends at most one request for each item
    of the batch, each authenticated with id and key under the client's
    timeout, and logs nothing without a logger, also when it panics; when
    it returns, the error is nil and there are at most as many ids as
    items. *)
Theorem CreateMultipleReceipts_bounds (c : Client) (receipts : list gomap)
    (w : World) :
  let o := CreateMultipleReceipts c receipts w in
  (∃ l, sent_between w (world_of o) l
        ∧ (length l ≤ length receipts)%nat
        ∧ Forall (operation_request c) l)
  ∧ (Logger c = false → logged (world_of o) = logged w)
  ∧ ∀ receiptIDs err w',
      o = Returns (receiptIDs, err) w' →
      err = None ∧ (length receiptIDs ≤ length receipts)%nat.
Proof.
  destruct (CreateMultipleReceipts_loop_bounds c receipts [] w)
    as [(l & Hs & Hlen & Hall & Hlog) Hids].
  unfold CreateMultipleReceipts. go_step.
  destruct (CreateMultipleReceipts_loop c receipts [] w) as [ids w1 | w1];
    simpl in *.
  - split; [ eauto | ]. split; [ exact Hlog | ].
    intros receiptIDs err w' [= <- <- <-].
    destruct (Hids ids w1 eq_refl) as (new & -> & Hnew). now split.
  - split; [ eauto | ]. split; [ exact Hlog | intros ? ? ? [=] ].
Qed.

(** X22: [CancelMultipleReceipts] returns the nil error for every batch,
    having sent at most one request for each id, each authenticated with
    id and key under the client's timeout, and having logged nothing if
    the client has no logger. *)
Theorem CancelMultipleReceipts_bounds (c : Client) (receiptIDs : list string)
    (w : World) :
  ∃ w' l,
    CancelMultipleReceipts c receiptIDs w = Returns None w'
    ∧ sent_between w w' l
    ∧ (length l ≤ length receiptIDs)%nat
    ∧ Forall (operation_request c) l
    ∧ (Logger c = false → logged w' = logged w).
Proof.
  assert (Hloop : ∃ w', CancelMultipleReceipts c receiptIDs w = Returns None w'
                        ∧ batch_trace c (length receiptIDs) w w').
  { revert w. induction receiptIDs as [ | receiptID rest IH]; intros w.
    { exists w. split; [ reflexivity | apply batch_trace_refl ]. }
    simpl. go_step.
    destruct (CancelReceipt_outcome c receiptID w)
      as ([resp err] & w1 & -> & _ & (l1 & Hs1 & Hlen1 & Hall1) & Hlog1).
    destruct err as [err | ].
    - destruct (Logger c) eqn:Hlogger; go_step.
      + match goal with
        | |- context [ CancelMultipleReceipts c rest ?w2 ] =>
            destruct (IH w2) as (w' & -> & Htrace);
            exists w'; (split; [ reflexivity | ]);
            apply (batch_trace_step c _ w w2 w' l1);
              [ exact Hs1 | exact Hlen1 | exact Hall1
              | intros Hno; congruence | exact Htrace ]
        end.
      + destruct (IH w1) as (w' & -> & Htrace).
        exists w'. split; [ reflexivity | ].
        apply (batch_trace_step c _ w w1 w' l1); auto.
    - destruct (IH w1) as (w' & -> & Htrace).
      exists w'. split; [ reflexivity | ].
      now apply (batch_trace_step c _ w w1 w' l1). }
  destruct Hloop as (w' & Hrun & l & Hs & Hlen & Hall & Hlog).
  exists w', l. auto.
Qed.

End BatchAnatomy.

Lemma CreateMultipleReceipts_all_malformed_witness :
  @CreateMultipleReceipts scripted (scripted_client [] true)
    [ None; Some ∅; Some (<["amount" := VInt 100]> ∅);
      Some (<["amount" := VInt64 100]> (<["account" := VString "x"]> ∅)) ]
    world0
  = Returns ([], None) world0.
Proof.
  apply (@CreateMultipleReceipts_all_malformed scripted).
  constructor; [ now left | ].
  constructor; [ now left | ].
  constructor; [ now left | ].
  constructor; [ now right | constructor ].
Defined.

(** ** Local filters *)

Lemma filter_loop_returns (keep : Receipt -> bool)
    (receipts filteredReceipts : list (option Receipt)) (w : World) :
  None ∉ receipts →
  filter_loop keep receipts filteredReceipts w
  = Returns (filteredReceipts ++ List.filter (kept keep) receipts) w.
Proof.
  revert filteredReceipts.
  induction receipts as [ | [receipt | ] rest IH]; intros filteredReceipts Hno;
    simpl.
  - now rewrite app_nil_r.
  - rewrite IH by set_solver.
    destruct (keep receipt); [ now rewrite <- app_assoc | reflexivity ].
  - exfalso. apply Hno. set_solver.
Qed.

Lemma filter_loop_panics (keep : Receipt -> bool)
    (receipts filteredReceipts : list (option Receipt)) (w : World) :
  None ∈ receipts →
  filter_loop keep receipts filteredReceipts w = Panics w.
Proof.
  revert filteredReceipts.
  induction receipts as [ | [receipt | ] rest IH]; intros filteredReceipts Hin;
    simpl.
  - now apply not_elem_of_nil in Hin.
  - apply IH. now apply elem_of_cons in Hin as [[=] | Hin].
  - reflexivity.
Qed.

Section FilterProperties.
Context `{!Runtime} `{!Calendar}.

(** The two filters after the fetch: over the window from one month before
    the first reading of the clock to the second reading. *)
Lemma fetch_and_filter_after_fetch (c : Client) (keep : Receipt -> bool)
    (limit : Z) (w w' : World) (fetched : option GetAllReceiptsResponse)
    (err : option error) :
  GetAllReceipts c (time_Now_month_back_UnixMilli (clock w))
    (time_Now_UnixMilli (S (clock w))) limit (after_two_readings w)
    = Returns (fetched, err) w' →
  fetch_and_filter c keep limit w
  = match err, fetched with
    | Some e, _ => Returns (None, Some e) w'
    | None, None => Panics w'
    | None, Some resp =>
        (filteredReceipts ← filter_loop keep (Receipts resp) [];
         mret (Some {| Receipts := filteredReceipts |}, None)) w'
    end.
Proof.
  intros Hfetch. unfold fetch_and_filter, time_Now_as, after_two_readings in *.
  go_step. rewrite Hfetch.
  destruct err, fetched; reflexivity.
Qed.

(** X23: [GetReceiptsByState] fetches the receipts of the month up to now
    and returns, in their order, exactly those whose state is the given
    one; an error of the fetch is returned as it is; a nil receipt among
    the fetched ones makes it panic. *)
Theorem GetReceiptsByState_spec (c : Client) (state limit : Z) (w w' : World)
    (fetched : GetAllReceiptsResponse)
    (x : option GetAllReceiptsResponse) (e : error) :
  let fetch :=
    GetAllReceipts c (time_Now_month_back_UnixMilli (clock w))
      (time_Now_UnixMilli (S (clock w))) limit (after_two_readings w) in
  (fetch = Returns (x, Some e) w' →
   GetReceiptsByState c state limit w = Returns (None, Some e) w')
  ∧ (fetch = Returns (Some fetched, None) w' →
     None ∈ Receipts fetched →
     GetReceiptsByState c state limit w = Panics w')
  ∧ (fetch = Returns (Some fetched, None) w' →
     None ∉ Receipts fetched →
     ∃ result,
       GetReceiptsByState c state limit w
         = Returns (Some {| Receipts := result |}, None) w'
       ∧ result = List.filter
                    (kept (λ receipt, Receipt_State receipt =? state))
                    (Receipts fetched)
       ∧ (∀ receipt, Some receipt ∈ result
                     ↔ Some receipt ∈ Receipts fetched
                       ∧ Receipt_State receipt = state)
       ∧ None ∉ result).
Proof.
  intros fetch. unfold GetReceiptsByState. repeat split.
  - intros Hfetch.
    now rewrite (fetch_and_filter_after_fetch _ _ _ _ _ _ _ Hfetch).
  - intros Hfetch Hnil.
    rewrite (fetch_and_filter_after_fetch _ _ _ _ _ _ _ Hfetch).
    go_step. now rewrite filter_loop_panics.
  - intros Hfetch Hsome. eexists. split; [ | split; [ reflexivity | ] ].
    + rewrite (fetch_and_filter_after_fetch _ _ _ _ _ _ _ Hfetch).
      go_step. now rewrite filter_loop_returns.
    + split.
      * intros receipt. rewrite !list_elem_of_In, filter_In. simpl.
        now rewrite Z.eqb_eq.
      * rewrite list_elem_of_In, filter_In. simpl. intros [_ [=]].
Qed.

(** X24: [GetReceiptsByAmountRange] fetches the receipts of the month up to
    now and returns, in their order, exactly those whose amount lies
    between the two bounds, both included; none when the lower bound
    exceeds the upper; an error of the fetch is returned as it is; a nil
    receipt among the fetched ones makes it panic. *)
Theorem GetReceiptsByAmountRange_spec (c : Client)
    (minAmount maxAmount limit : Z) (w w' : World)
    (fetched : GetAllReceiptsResponse)
    (x : option GetAllReceiptsResponse) (e : error) :
  let fetch :=
    GetAllReceipts c (time_Now_month_back_UnixMilli (clock w))
      (time_Now_UnixMilli (S (clock w))) limit (after_two_readings w) in
  (fetch = Returns (x, Some e) w' →
   GetReceiptsByAmountRange c minAmount maxAmount limit w
     = Returns (None, Some e) w')
  ∧ (fetch = Returns (Some fetched, None) w' →
     None ∈ Receipts fetched →
     GetReceiptsByAmountRange c minAmount maxAmount limit w = Panics w')
  ∧ (fetch = Returns (Some fetched, None) w' →
     None ∉ Receipts fetched →
     ∃ result,
       GetReceiptsByAmountRange c minAmount maxAmount limit w
         = Returns (Some {| Receipts := result |}, None) w'
       ∧ result = List.filter
                    (kept (λ receipt,
                             (Receipt_Amount receipt >=? minAmount)
                             && (Receipt_Amount receipt <=? maxAmount)))
                    (Receipts fetched)
       ∧ (∀ receipt, Some receipt ∈ result
                     ↔ Some receipt ∈ Receipts fetched
                       ∧ minAmount ≤ Receipt_Amount receipt ≤ maxAmount)
       ∧ (maxAmount < minAmount → result = [])).
Proof.
  intros fetch. unfold GetReceiptsByAmountRange. repeat split.
  - intros Hfetch.
    now rewrite (fetch_and_filter_after_fetch _ _ _ _ _ _ _ Hfetch).
  - intros Hfetch Hnil.
    rewrite (fetch_and_filter_after_fetch _ _ _ _ _ _ _ Hfetch).
    go_step. now rewrite filter_loop_panics.
  - intros Hfetch Hsome. eexists. split; [ | split; [ reflexivity | ] ].
    + rewrite (fetch_and_filter_after_fetch _ _ _ _ _ _ _ Hfetch).
      go_step. now rewrite filter_loop_returns.
    + split.
      * intros receipt. rewrite !list_elem_of_In, filter_In. simpl.
        rewrite andb_true_iff, Z.geb_le, Z.leb_le. tauto.
      * intros Hempty. clear Hsome Hfetch.
        induction (Receipts fetched) as [ | [receipt | ] rest IH]; simpl;
          try exact IH; [ reflexivity | ].
        destruct (Z.geb_spec (Receipt_Amount receipt) minAmount),
                 (Z.leb_spec (Receipt_Amount receipt) maxAmount);
          simpl; first [ exact IH | lia ].
Qed.

End FilterProperties.

Lemma three_receipts_not_nil : None ∉ three_receipts.
Proof.
  unfold three_receipts. rewrite !not_elem_of_cons.
  repeat split; first [ discriminate | apply not_elem_of_nil ].
Qed.

Lemma GetReceiptsByState_spec_witness :
  (∃ w',
     @GetReceiptsByState (scripted_with_receipts three_receipts)
       scripted_calendar (scripted_client [answer 200 "list"] false) 1 10
       world0
     = Returns
         (Some {| Receipts := [ Some (scripted_receipt_of "r-0002" 1 20000);
                                Some (scripted_receipt_of "r-0003" 1 30000) ]
               |}, None) w')
  ∧ (∃ w',
       @GetReceiptsByState (scripted_with_receipts (None :: three_receipts))
         scripted_calendar (scripted_client [answer 200 "list"] false) 1 10
         world0
       = Panics w').
Proof.
  split.
  - eexists.
    epose proof (@GetReceiptsByState_spec
                   (scripted_with_receipts three_receipts) scripted_calendar
                   (scripted_client [answer 200 "list"] false) 1 10 world0 _
                   {| Receipts := three_receipts |} None ErrTimeout)
      as (_ & _ & Hfilter).
    edestruct Hfilter as (result & Hrun & -> & _);
      [ vm_compute; reflexivity | exact three_receipts_not_nil | exact Hrun ].
  - eexists.
    eapply (@GetReceiptsByState_spec
              (scripted_with_receipts (None :: three_receipts))
              scripted_calendar (scripted_client [answer 200 "list"] false)
              1 10 world0 _ {| Receipts := None :: three_receipts |} None
              ErrTimeout);
      [ vm_compute; reflexivity | apply list_elem_of_here ].
Defined.

Lemma GetReceiptsByAmountRange_spec_witness :
  (∃ w',
     @GetReceiptsByAmountRange (scripted_with_receipts three_receipts)
       scripted_calendar (scripted_client [answer 200 "list"] false)
       10000 20000 10 world0
     = Returns
         (Some {| Receipts := [ Some (scripted_receipt_of "r-0001" 0 10000);
                                Some (scripted_receipt_of "r-0002" 1 20000) ]
               |}, None) w')
  ∧ (∃ w',
       @GetReceiptsByAmountRange (scripted_with_receipts three_receipts)
         scripted_calendar (scripted_client [] false) 10000 20000 10 world0
       = Returns
           (None, Some (Errorf_w "http request error"
                          (Foreign "connection refused" None))) w').
Proof.
  split.
  - eexists.
    epose proof (@GetReceiptsByAmountRange_spec
                   (scripted_with_receipts three_receipts) scripted_calendar
                   (scripted_client [answer 200 "list"] false) 10000 20000 10
                   world0 _ {| Receipts := three_receipts |} None ErrTimeout)
      as (_ & _ & Hfilter).
    edestruct Hfilter as (result & Hrun & -> & _);
      [ vm_compute; reflexivity | exact three_receipts_not_nil | exact Hrun ].
  - eexists.
    eapply (@GetReceiptsByAmountRange_spec
              (scripted_with_receipts three_receipts) scripted_calendar
              (scripted_client [] false) 10000 20000 10 world0 _
              {| Receipts := [] |} None
              (Errorf_w "http request error"
                 (Foreign "connection refused" None))).
    vm_compute. reflexivity.
Defined.

(** ** Merchant parameters and request ids *)

(** X25: under a requisite name other than [card_id] and [reason], the
    parameters of [CreateMerchantReceipt] hold three entries, the amount,
    the account and the description of the order, and the account holds
    three, the order id under the requisite name, the card id of the
    client and the reason 6; the pay parameters hold the receipt id and
    the card token of the client. *)
Theorem merchant_params (c : Client) (data : PaymentDetails)
    (createdReceiptsID : string) :
  RequisiteName c ≠ "card_id" → RequisiteName c ≠ "reason" →
  let client := PaymentDetails_Client data in
  ∃ params account,
    CreateMerchantReceipt_params c data = VMap params
    ∧ dom params = {[ "amount"; "account"; "description" ]}
    ∧ params !! "description"
      = Some (VString ("Merchant transaction for order - "
                       +:+ PaymentData_OrderID client))
    ∧ params !! "account" = Some (VMap account)
    ∧ dom account = {[ RequisiteName c; "card_id"; "reason" ]}
    ∧ size account = 3%nat
    ∧ account !! RequisiteName c = Some (VString (PaymentData_OrderID client))
    ∧ account !! "card_id"
      = Some (VString (CardData_ID (PaymentData_CardData client)))
    ∧ account !! "reason" = Some (VString "6")
    ∧ PayMerchantReceipt_params data createdReceiptsID
      = VMap {[ "id" := VString createdReceiptsID;
                "token" := VString (CardData_Token
                                      (PaymentData_CardData client)) ]}.
Proof.
  intros Hcard Hreason client.
  unfold CreateMerchantReceipt_params, PayMerchantReceipt_params.
  eexists _, _. split; [ reflexivity | ].
  split; [ rewrite !dom_insert_L, dom_empty_L; set_solver | ].
  split; [ now simplify_map_eq | ].
  split; [ now simplify_map_eq | ].
  split.
  { rewrite !dom_insert_L, dom_empty_L. apply set_eq. intros k.
    rewrite !elem_of_union, !elem_of_singleton, elem_of_empty. tauto. }
  split.
  { rewrite !map_size_insert_None, map_size_empty;
      first [ reflexivity | now simplify_map_eq ]. }
  split; [ now simplify_map_eq | ].
  split; [ now simplify_map_eq | ].
  split; [ now simplify_map_eq | ].
  apply (f_equal VMap). rewrite insert_insert_ne by discriminate.
  now rewrite insert_empty.
Qed.

Lemma merchant_params_witness :
  ∃ params account,
    CreateMerchantReceipt_params (scripted_client [] false)
      (order 50 "token-0001") = VMap params
    ∧ params !! "account" = Some (VMap account)
    ∧ account !! "order_id" = Some (VString "42").
Proof.
  edestruct (merchant_params (scripted_client [] false)
               (order 50 "token-0001") "r-0001")
    as (params & account & Hparams & _ & _ & Haccount & _ & _ & Horder & _).
  - discriminate.
  - discriminate.
  - exists params, account. repeat split; assumption.
Defined.

Section RequestIDs.
Context `{!Runtime}.

(** X26: two request ids generated one after the other under the same
    prefix are equal exactly when the two readings of the clock are: the
    id is the prefix and the time in nanoseconds, and nothing else tells
    two requests apart. *)
Theorem GenerateRequestID_collision (prefix : string) (w : World) :
  ∃ id1 id2 w1 w2,
    GenerateRequestID prefix w = Returns id1 w1
    ∧ GenerateRequestID prefix w1 = Returns id2 w2
    ∧ sent w2 = sent w ∧ logged w2 = logged w
    ∧ (id1 = id2
       ↔ time_Now_UnixNano (clock w) = time_Now_UnixNano (S (clock w))).
Proof.
  unfold GenerateRequestID. go_step.
  eexists _, _, _, _. split; [ reflexivity | ]. split; [ reflexivity | ].
  simpl. repeat split.
  - intros Heq. do 2 apply String.app_inj in Heq.
    now apply pretty_Z_inj in Heq.
  - now intros ->.
Qed.

End RequestIDs.
